(** * sploitkit.core.components.config: Config and Option

    A shallow embedding of [sploitkit/core/components/config.py] and the
    properties of its configuration store: the raw read of
    [Config.__getitem__], the assignment protocol of [Config.__setitem__],
    the per-scope registry of [Option.bind] and the value pipeline of
    [Option.value].

    Python objects live in an explicit heap and are known by their address
    (what [id] returns); functions that mutate objects thread the heap
    through a state-and-exception monad. *)

From stdpp Require Import base gmap strings list pretty sorting.
From Stdlib Require Import ZArith Ascii String.

Open Scope string_scope.
Open Scope Z_scope.
Open Scope nat_scope.

(** ** Python values *)

(** The identity of an object: the number [id(obj)] returns. *)
Abbreviation addr := nat (only parsing).

(** The values an option holds or a hook returns. [VObj a] is any other
    object (a list, a float, an [Option] instance, ...), known by its
    identity: it has no string methods and the default truth value. *)
Inductive value : Type :=
  | VNone
  | VBool (b : bool)
  | VInt (n : Z)
  | VStr (s : string)
  | VObj (a : addr).

(** [bool(v)], as the [not] of line 46 tests it. *)
Definition truthy (v : value) : bool :=
  match v with
  | VNone => false
  | VBool b => b
  | VInt n => negb (n =? 0)%Z
  | VStr s => negb (String.eqb s "")
  | VObj _ => true
  end.

(** [v is None] *)
Definition is_None (v : value) : bool :=
  match v with VNone => true | _ => false end.

(** ** Strings *)

(** A string is text in its UTF-8 encoding, one [ascii] per byte. The
    characters the module itself looks for (braces, the lower-case
    letters of a placeholder, the letters of [FOLDER] and [WORKSPACE]) are
    ASCII, one byte each, and no byte of another character is below 128,
    so matching them byte by byte is matching them character by
    character. The methods of [str] that depend on the character tables
    ([isdigit], [lower]) and [int] are taken from the runtime, below. *)

Fixpoint all_chars (p : ascii -> bool) (s : string) : bool :=
  match s with
  | EmptyString => true
  | String c s' => p c && all_chars p s'
  end.

Definition is_digit_char (c : ascii) : bool :=
  let n := nat_of_ascii c in (48 <=? n) && (n <=? 57).

Definition is_lower_char (c : ascii) : bool :=
  let n := nat_of_ascii c in (97 <=? n) && (n <=? 122).

Definition is_upper_char (c : ascii) : bool :=
  let n := nat_of_ascii c in (65 <=? n) && (n <=? 90).

(** At least one character, all of them among [0] to [9]. *)
Definition ascii_isdigit (s : string) : bool :=
  match s with
  | EmptyString => false
  | _ => all_chars is_digit_char s
  end.

Definition lower_char (c : ascii) : ascii :=
  if is_upper_char c then ascii_of_nat (nat_of_ascii c + 32) else c.

(** The letters [A] to [Z] put in lower case, every other byte kept. *)
Fixpoint ascii_lower (s : string) : string :=
  match s with
  | EmptyString => EmptyString
  | String c s' => String (lower_char c) (ascii_lower s')
  end.

(** The number a string of the digits [0] to [9] writes, most
    significant digit first. *)
Fixpoint int_of_digits (acc : Z) (s : string) : Z :=
  match s with
  | EmptyString => acc
  | String c s' =>
      int_of_digits (10 * acc + Z.of_nat (nat_of_ascii c - 48))%Z s'
  end.

Definition decimal_value (s : string) : Z := int_of_digits 0 s.

(** [s.endswith(suffix)] *)
Definition endswith (s suffix : string) : bool :=
  let n := String.length s in
  let m := String.length suffix in
  (m <=? n) && String.eqb (substring (n - m) m s) suffix.

(** [re.findall(r'\{([a-z]+)\}', s)], as one left-to-right scan. [open] is
    [Some acc] after an opening brace followed by the lower-case letters
    [acc], and [None] outside a candidate match. A candidate that meets
    anything but a letter or its closing brace is dropped; a new opening
    brace starts the next candidate. *)
Fixpoint scan_placeholders (open : option string) (s : string) : list string :=
  match s with
  | EmptyString => []
  | String c s' =>
      if Ascii.eqb c "{" then scan_placeholders (Some "") s'
      else match open with
           | None => scan_placeholders None s'
           | Some acc =>
               if is_lower_char c
               then scan_placeholders (Some (acc +:+ String c "")) s'
               else if Ascii.eqb c "}" && negb (String.eqb acc "")
               then acc :: scan_placeholders None s'
               else scan_placeholders None s'
           end
  end.

Definition findall_placeholders (s : string) : list string :=
  scan_placeholders None s.

(** No brace at all: [str.format] has nothing to replace or unescape. *)
Definition brace_free (s : string) : bool :=
  all_chars (fun c => negb (Ascii.eqb c "{") && negb (Ascii.eqb c "}")) s.

(** ** Exceptions and outcomes *)

(** The classes of the exceptions met in the module; all derive from
    [Exception], which stands for that class itself and for any subclass
    not listed. Exits and interrupts, which are not exceptions of class
    [Exception], are outside the model. *)
Inductive exn_class : Type :=
  | Exception
  | KeyError
  | ValueError
  | AttributeError
  | TypeError.

(** An exception raised with one argument, as all of the module's are. *)
Record exn : Type := Exn { exn_cls : exn_class; exn_arg : string }.

(** [str(e)]: the argument, which [KeyError] shows quoted. *)
Definition exn_str (e : exn) : string :=
  match exn_cls e with
  | KeyError => "'" +:+ exn_arg e +:+ "'"
  | _ => exn_arg e
  end.

(** What [Option.__set_func] raises for the hook named [name]. *)
Definition bad_lambda (name : string) : exn :=
  Exn Exception ("Bad " +:+ name +:+ " lambda").

(** What [Option.value] raises for a required option without a value. *)
Definition must_be_defined (n : string) : exn :=
  Exn ValueError (n +:+ " must be defined").

(** What line 55 raises on a scope without a console. *)
Definition no_console : exn :=
  Exn AttributeError "'Config' object has no attribute 'console'".

(** What evaluating a Python expression gives: a value, a raised
    exception, or no behaviour of the program at all ([Stuck]: the model
    ran out of recursion depth, or an address is not in the heap). *)
Inductive outcome (A : Type) : Type :=
  | Ok (a : A)
  | Raise (e : exn)
  | Stuck.
Arguments Ok {A} a.
Arguments Raise {A} e.
Arguments Stuck {A}.

Definition obind {A B : Type} (m : outcome A) (k : A -> outcome B) : outcome B :=
  match m with
  | Ok a => k a
  | Raise e => Raise e
  | Stuck => Stuck
  end.

Definition of_option {A : Type} (o : option A) : outcome A :=
  match o with Some a => Ok a | None => Stuck end.

Declare Scope outcome_scope.
Delimit Scope outcome_scope with outcome.
Notation "'let?' x := m 'in' k" := (obind m (fun x => k))
  (at level 10, x name, m at level 100, k at level 200) : outcome_scope.
Open Scope outcome_scope.

(** ** What the module takes from outside *)

(** The built-ins of Python and [Path], which comes from
    [sploitkit.utils.path]; the module uses them as black boxes.
    - [str_format s kw] is [s.format( **kw )], [None] when it raises
      (line 179 catches whatever it raises);
    - [path_expand v] is [str(Path(v, expand=True))];
    - [str_isdigit s] is [s.isdigit()] and [str_lower s] is [s.lower()],
      both over all of Unicode;
    - [str_int s] is [int(s)], which raises [ValueError] for a string it
      cannot read, digits of [isdigit] included (a superscript two);
    - [object_str a] is [str(x)] for the object [x] of identity [a], an
      object the module does not write to.
    The one fact used about them: formatting a string without braces
    returns it as it is. *)
Class Runtime : Type := {
  str_format : string -> gmap string value -> option string;
  path_expand : value -> outcome string;
  str_isdigit : string -> bool;
  str_lower : string -> string;
  str_int : string -> outcome Z;
  object_str : addr -> string;
  str_format_plain : forall s kw, brace_free s = true -> str_format s kw = Some s
}.

(** [str(v)] *)
Definition py_str `{Runtime} (v : value) : string :=
  match v with
  | VNone => "None"
  | VBool true => "True"
  | VBool false => "False"
  | VInt n => pretty n
  | VStr s => s
  | VObj a => object_str a
  end.

(** ** Hooks *)

(** What a hook sees of the option it is bound to: its identity, its name,
    its choices, and what reading [s.input] and [s.value] gives at the time
    of the call. *)
Record view : Type := View {
  v_self : addr;
  v_name : string;
  v_choices : option (list value);
  v_input : outcome value;
  v_value : outcome value
}.

(** A positional argument of a hook: the option ([self]) or a value. *)
Inductive pyarg : Type :=
  | ASelf (s : view)
  | AVal (v : value).

(** A function object: its [__name__] and what a call returns or raises
    on given positional arguments, with the built-ins of the runtime it
    runs in. A hook does not write to the store. *)
Record func : Type := Func {
  fn_name : string;
  fn_call : Runtime -> list pyarg -> outcome value
}.
Arguments fn_call f {_} args.

(** What an attribute [transform], [validate] or [callback] holds: a plain
    function, or a method bound to an option by
    [func.__get__(self, self.__class__)]. Only the first is an instance of
    [type(lambda:0)]. *)
Inductive callable : Type :=
  | Function (f : func)
  | Method (self : addr) (f : func).

Definition lambda_name : string := "<lambda>".

(** Line 135: [lambda *a, **kw: a[-1] if len(a) > 0 else None] *)
Definition default_lambda : func :=
  Func lambda_name (fun _ a =>
    match last a with
    | Some (AVal v) => Ok v
    | Some (ASelf s) => Ok (VObj (v_self s))
    | None => Ok VNone
    end).

(** [x in l] for the strings of lines 119-120 *)
Definition str_in (x : string) (l : list string) : bool :=
  existsb (String.eqb x) l.

(** Lines 119-120:
    [lambda s: str(s.value).lower() in [str(_).lower() for _ in s.choices]] *)
Definition choices_lambda : func :=
  Func lambda_name (fun _ a =>
    match a with
    | [ASelf s] =>
        let? v := v_value s in
        match v_choices s with
        | Some l =>
            Ok (VBool (str_in (str_lower (py_str v))
                              (map (fun c => str_lower (py_str c)) l)))
        | None => Raise (Exn TypeError "'NoneType' object is not iterable")
        end
    | _ => Raise (Exn TypeError "<lambda>() takes exactly 1 argument")
    end).

(** ** Objects and the heap *)

(** An [Option] instance. [o_config] is [None] while the instance has no
    attribute [config] (it is unbound). *)
Record Option_obj : Type := mkOption {
  o_name : string;
  o_description : option string;
  o_required : bool;
  o_choices : option (list value);
  o_transform : callable;
  o_validate : callable;
  o_callback : callable;
  o_config : option addr;
  o_old_value : value;
  o_reset : bool
}.

(** The console a [Config] belongs to, as far as the module looks at it:
    [parent] is the [Config] of the parent console ([console.parent.config]),
    [None] when [console.parent is None]; [attrs] is [console.__dict__]. *)
Record Console : Type := mkConsole {
  parent : option addr;
  attrs : gmap string value
}.

(** A [Config] instance: [c_d] is the private dictionary [self.__d],
    [c_items] the entries of the [dict] it inherits from, keyed by [Option]
    instance; [c_console] is [None] while the instance has no attribute
    [console]; [c_last_error] is [_last_error]. *)
Record Config_obj : Type := mkConfig {
  c_d : gmap string (addr * value);
  c_items : gmap addr value;
  c_console : option Console;
  c_last_error : option string
}.

(** Calls made on the hooks and on the console, in order. *)
Inductive event : Type :=
  | EvCallback (o : addr)
  | EvReset (c : addr).

(** The heap: the [Option] and [Config] instances, the class attribute
    [Option._instances] (id of a [Config] to name to [Option]), and the
    calls observed so far. *)
Record world : Type := mkWorld {
  options : gmap addr Option_obj;
  configs : gmap addr Config_obj;
  instances : gmap addr (gmap string addr);
  trace : list event
}.

Definition empty_world : world := mkWorld ∅ ∅ ∅ [].

Definition set_options (f : gmap addr Option_obj -> gmap addr Option_obj) (w : world) : world :=
  mkWorld (f (options w)) (configs w) (instances w) (trace w).

Definition set_configs (f : gmap addr Config_obj -> gmap addr Config_obj) (w : world) : world :=
  mkWorld (options w) (f (configs w)) (instances w) (trace w).

Definition set_instances (f : gmap addr (gmap string addr) -> gmap addr (gmap string addr)) (w : world) : world :=
  mkWorld (options w) (configs w) (f (instances w)) (trace w).

Definition log (e : event) (w : world) : world :=
  mkWorld (options w) (configs w) (instances w) (trace w ++ [e])%list.

(** [o.config = c] *)
Definition with_config (c : addr) (o : Option_obj) : Option_obj :=
  mkOption (o_name o) (o_description o) (o_required o) (o_choices o)
           (o_transform o) (o_validate o) (o_callback o) (Some c)
           (o_old_value o) (o_reset o).

(** [o.old_value = v] *)
Definition with_old_value (v : value) (o : Option_obj) : Option_obj :=
  mkOption (o_name o) (o_description o) (o_required o) (o_choices o)
           (o_transform o) (o_validate o) (o_callback o) (o_config o)
           v (o_reset o).

(** [self.__d[k] = (o, v)] *)
Definition with_d (k : string) (o : addr) (v : value) (c : Config_obj) : Config_obj :=
  mkConfig (<[k := (o, v)]> (c_d c)) (c_items c) (c_console c) (c_last_error c).

(** [dict.__setitem__(self, o, v)] *)
Definition with_item (o : addr) (v : value) (c : Config_obj) : Config_obj :=
  mkConfig (c_d c) (<[o := v]> (c_items c)) (c_console c) (c_last_error c).

(** [self._last_error = s] *)
Definition with_last_error (s : string) (c : Config_obj) : Config_obj :=
  mkConfig (c_d c) (c_items c) (c_console c) (Some s).

(** ** Reads: [Config.__getitem__], [Config.option], [Option.input] *)

(** A key of a read: a name, or an [Option] instance standing for its name. *)
Inductive key : Type :=
  | KStr (s : string)
  | KOpt (o : addr).

(** Lines 22-23 and 73-74: [if isinstance(key, Option): key = key.name] *)
Definition key_name (w : world) (k : key) : outcome string :=
  match k with
  | KStr s => Ok s
  | KOpt o => let? ob := of_option (options w !! o) in Ok (o_name ob)
  end.

(** Lines 18-29. [fuel] bounds the number of scopes visited up the chain
    of parents. *)
Fixpoint Config_getitem (fuel : nat) (w : world) (self : addr) (k : key) : outcome value :=
  match fuel with
  | O => Stuck
  | S fuel' =>
      let? n := key_name w k in
      let? cfg := of_option (configs w !! self) in
      match c_d cfg !! n with
      | Some (_, v) => Ok v
      | None =>
          match c_console cfg with
          | Some co =>
              match parent co with
              | Some p => Config_getitem fuel' w p (KStr n)
              | None => Raise (Exn KeyError n)
              end
          | None => Raise (Exn KeyError n)
          end
      end
  end.

(** Lines 71-80 *)
Fixpoint Config_option (fuel : nat) (w : world) (self : addr) (k : key) : outcome addr :=
  match fuel with
  | O => Stuck
  | S fuel' =>
      let? n := key_name w k in
      let? cfg := of_option (configs w !! self) in
      match c_d cfg !! n with
      | Some (o, _) => Ok o
      | None =>
          match c_console cfg with
          | Some co =>
              match parent co with
              | Some p => Config_option fuel' w p (KStr n)
              | None => Raise (Exn KeyError n)
              end
          | None => Raise (Exn KeyError n)
          end
      end
  end.

(** Lines 158-164 *)
Definition Option_input (fuel : nat) (w : world) (self : addr) : outcome value :=
  let? o := of_option (options w !! self) in
  match o_config o with
  | Some c => Config_getitem fuel w c (KOpt self)
  | None => Raise (Exn Exception ("Unbound option " +:+ o_name o))
  end.

(** ** The value pipeline: [Option.value] *)

Section Pipeline.
Context `{Runtime}.

(** Lines 172-182. With a placeholder in [str(value)] and no console on
    the scope, [self.config.console] raises [AttributeError] and the outer
    handler leaves the value as it is. Otherwise [kw] is filled from
    [console.__dict__] and [value.format] is tried; a value without
    [format], or a failing [format], leaves the value as it is. *)
Definition expand_template (co : option Console) (v : value) : value :=
  let names := findall_placeholders (py_str v) in
  match names, co with
  | _ :: _, None => v
  | _, _ =>
      let attr n := default (VStr "") (co ≫= fun c => attrs c !! n) in
      let kw := foldl (fun kw n => <[n := attr n]> kw) ∅ names in
      match v with
      | VStr s =>
          match str_format s kw with
          | Some s' => VStr s'
          | None => v
          end
      | _ => v
      end
  end.

Definition is_path_name (n : string) : bool :=
  endswith n "FOLDER" || endswith n "WORKSPACE".

(** Lines 184-186 *)
Definition resolve_path (n : string) (v : value) : outcome value :=
  if is_path_name n then let? s := path_expand v in Ok (VStr s) else Ok v.

(** [value.lower()]: [None] is [AttributeError]. *)
Definition py_lower (v : value) : option string :=
  match v with VStr s => Some (str_lower s) | _ => None end.

(** [int(s)] for a string [s]. *)
Definition py_int (s : string) : outcome value :=
  let? n := str_int s in Ok (VInt n).

(** Lines 188-194. A value that is no string has no [isdigit]: the
    [AttributeError] is caught and the value stays. The handler catches
    [AttributeError] only: what [int(value)] raises leaves
    [Option.value]. It keeps what [value] was assigned before the
    [AttributeError]: after [int(value)], [value.lower()] raises and the
    integer stays. *)
Definition coerce (v : value) : outcome value :=
  match v with
  | VStr s =>
      let? v1 := if str_isdigit s then py_int s else Ok v in
      match py_lower v1 with
      | None => Ok v1
      | Some l =>
          Ok (if str_in l ["false"; "true"]
              then VBool (String.eqb l "true") else v1)
      end
  | _ => Ok v
  end.

(** Lines 196-198: the hook is called only when the attribute is an
    instance of [type(lambda:0)] named as a lambda is. *)
Definition apply_transform (t : callable) (v : value) : outcome value :=
  match t with
  | Function f =>
      if String.eqb (fn_name f) lambda_name then fn_call f [AVal v] else Ok v
  | Method _ _ => Ok v
  end.

(** Lines 166-199 *)
Definition Option_value (fuel : nat) (w : world) (self : addr) : outcome value :=
  let? o := of_option (options w !! self) in
  let? v := Option_input fuel w self in
  if o_required o && is_None v
  then Raise (must_be_defined (o_name o))
  else
    let? c := of_option (o_config o) in
    let? cfg := of_option (configs w !! c) in
    let v := expand_template (c_console cfg) v in
    let? v := resolve_path (o_name o) v in
    let? v := coerce v in
    apply_transform (o_transform o) v.

(** ** Calling a hook *)

Definition view_of (fuel : nat) (w : world) (self : addr) : outcome view :=
  let? o := of_option (options w !! self) in
  Ok (View self (o_name o) (o_choices o)
           (Option_input fuel w self) (Option_value fuel w self)).

(** [c()] for an attribute [c] of an option: a bound method receives the
    option it is bound to. *)
Definition call (fuel : nat) (w : world) (c : callable) : outcome value :=
  match c with
  | Function f => fn_call f []
  | Method s f => let? vw := view_of fuel w s in fn_call f [ASelf vw]
  end.

(** ** Computations on the heap *)

Definition M (A : Type) : Type := world -> world * outcome A.

Definition ret {A : Type} (a : A) : M A := fun w => (w, Ok a).

Definition raise {A : Type} (e : exn) : M A := fun w => (w, Raise e).

Definition mbind {A B : Type} (m : M A) (k : A -> M B) : M B :=
  fun w =>
    match m w with
    | (w', Ok a) => k a w'
    | (w', Raise e) => (w', Raise e)
    | (w', Stuck) => (w', Stuck)
    end.

(** Read the heap without changing it. *)
Definition inspect {A : Type} (f : world -> outcome A) : M A := fun w => (w, f w).

Definition modify (f : world -> world) : M unit := fun w => (f w, Ok tt).

End Pipeline.

Notation "'let!' x := m 'in' k" := (mbind m (fun x => k))
  (at level 10, x name, m at level 100, k at level 200) : outcome_scope.

(** ** Construction, binding and copy of an [Option] *)

(** The [choices] argument of the constructor: [None], the type [bool],
    or a list. *)
Inductive choices_arg : Type :=
  | CNone
  | CBool
  | CList (l : list value).

(** The arguments of [Option(...)], lines 109-110. *)
Record init_args : Type := Args {
  a_name : string;
  a_description : option string;
  a_required : bool;
  a_choices : choices_arg;
  a_transform : option callable;
  a_validate : option callable;
  a_callback : option callable
}.

(** [Option(name)] *)
Definition name_only (n : string) : init_args :=
  Args n None false CNone None None None.

(** Lines 132-139. [func] is [None] or a callable; the result is what
    [setattr] stores. *)
Definition Option_set_func (self : addr) (func : option callable) (name : string)
  : outcome callable :=
  let func := match func with
              | None => Function default_lambda
              | Some f => f
              end in
  match func with
  | Function f => Ok (Method self f)
  | Method _ _ => Raise (bad_lambda name)
  end.

(** Lines 109-122, with the allocation of the instance. When a hook is
    refused the instance under construction is never seen by anyone and
    the heap is left as it was. *)
Definition Option_init (args : init_args) : M addr :=
  fun w =>
    let self := fresh (dom (options w)) in
    let choices := match a_choices args with
                   | CBool => Some [VStr "true"; VStr "false"]
                   | CList l => Some l
                   | CNone => None
                   end in
    let validate := match a_validate args, choices with
                    | None, Some _ => Some (Function choices_lambda)
                    | v, _ => v
                    end in
    let built :=
      let? t := Option_set_func self (a_transform args) "transform" in
      let? v := Option_set_func self validate "validate" in
      let? c := Option_set_func self (a_callback args) "callback" in
      Ok (mkOption (a_name args) (a_description args) (a_required args)
                   choices t v c None VNone false) in
    match built with
    | Ok o => (set_options (insert self o) w, Ok self)
    | Raise e => (w, Raise e)
    | Stuck => (w, Stuck)
    end.

(** Lines 141-151. The registry [Option._instances] is keyed by
    [id(parent)]. *)
Definition Option_bind (self parent : addr) : M addr :=
  fun w =>
    match options w !! self with
    | None => (w, Stuck)
    | Some o =>
        let reg := default ∅ (instances w !! parent) in
        match reg !! o_name o with
        | None =>
            (set_options (alter (with_config parent) self)
               (set_instances (insert parent (<[o_name o := self]> reg)) w),
             Ok self)
        | Some canon =>
            (set_options (alter (with_config parent) canon)
               (set_instances (insert parent reg) w),
             Ok canon)
        end
    end.

(** Lines 153-156 *)
Definition Option_copy (self : addr) : M addr :=
  fun w =>
    match options w !! self with
    | None => (w, Stuck)
    | Some o =>
        Option_init
          (Args (o_name o) (o_description o) (o_required o)
                (match o_choices o with Some l => CList l | None => CNone end)
                (Some (o_transform o)) (Some (o_validate o)) (Some (o_callback o)))
          w
    end.

(** ** Assignment: [Config.__setitem__] *)

(** A key of an assignment: an [Option] instance, a name, or the tuple of
    the constructor's arguments. *)
Inductive setkey : Type :=
  | SOpt (o : addr)
  | SStr (s : string)
  | STuple (args : init_args).

Section Assignment.
Context `{Runtime}.

(** Lines 34-41: the canonical instance for the key. *)
Definition setitem_key (self : addr) (k : setkey) : M addr :=
  let! tmp := match k with
              | SOpt o => ret o
              | SStr s => Option_init (name_only s)
              | STuple a => Option_init a
              end in
  Option_bind tmp self.

(** Line 43: [key.old_value = key.value if self.__d.get(key.name) else None] *)
Definition setitem_old_value (fuel : nat) (self k : addr) : M unit :=
  let! cfg := inspect (fun w => of_option (configs w !! self)) in
  let! o := inspect (fun w => of_option (options w !! k)) in
  let! old := inspect (fun w =>
                match c_d cfg !! o_name o with
                | Some _ => Option_value fuel w k
                | None => Ok VNone
                end) in
  modify (set_options (alter (with_old_value old) k)).

(** Line 45: [self.__d[key.name] = (key, value)] *)
Definition setitem_assign (self k : addr) (v : value) : M unit :=
  let! o := inspect (fun w => of_option (options w !! k)) in
  modify (set_configs (alter (with_d (o_name o) k v) self)).

(** Lines 34-45: everything up to and including the write to [self.__d];
    returns the canonical instance. *)
Definition setitem_store (fuel : nat) (self : addr) (k : setkey) (v : value) : M addr :=
  let! key := setitem_key self k in
  let! _ := setitem_old_value fuel self key in
  let! _ := setitem_assign self key v in
  ret key.

(** Lines 46-47 *)
Definition setitem_validate (fuel : nat) (k : addr) : M unit :=
  let! o := inspect (fun w => of_option (options w !! k)) in
  let! r := inspect (fun w => call fuel w (o_validate o)) in
  if truthy r then ret tt else raise (Exn ValueError "Invalid value").

(** Line 48 *)
Definition setitem_super (self k : addr) (v : value) : M unit :=
  modify (set_configs (alter (with_item k v) self)).

(** Lines 49-53 *)
Definition setitem_callback (fuel : nat) (self k : addr) : M unit :=
  let! o := inspect (fun w => of_option (options w !! k)) in
  fun w =>
    match call fuel w (o_callback o) with
    | Ok _ => (log (EvCallback k) w, Ok tt)
    | Raise e =>
        (set_configs (alter (with_last_error (exn_str e)) self)
           (log (EvCallback k) w), Ok tt)
    | Stuck => (w, Stuck)
    end.

(** Lines 54-55. Without a console, [self.console] raises. *)
Definition setitem_reset (self k : addr) : M unit :=
  let! o := inspect (fun w => of_option (options w !! k)) in
  let! cfg := inspect (fun w => of_option (configs w !! self)) in
  if o_reset o
  then match c_console cfg with
       | Some _ => modify (log (EvReset self))
       | None => raise no_console
       end
  else ret tt.

(** Lines 46-55: what follows the write to [self.__d]. *)
Definition setitem_finish (fuel : nat) (self k : addr) (v : value) : M unit :=
  let! _ := setitem_validate fuel k in
  let! _ := setitem_super self k v in
  let! _ := setitem_callback fuel self k in
  setitem_reset self k.

(** Lines 31-55 *)
Definition Config_setitem (fuel : nat) (self : addr) (k : setkey) (v : value) : M unit :=
  let! key := setitem_store fuel self k v in
  setitem_finish fuel self key v.

End Assignment.

(** ** The rest of [Config] *)

(** [key in self], as line 84 asks it: membership in the inherited
    [dict], whose keys are [Option] instances, hashed and compared by
    identity. A name is never one of them. *)
Definition Config_contains (w : world) (self : addr) (k : key) : outcome bool :=
  let? cfg := of_option (configs w !! self) in
  Ok (match k with
      | KOpt o => bool_decide (is_Some (c_items cfg !! o))
      | KStr _ => false
      end).

(** A key of a read, used as the key of an assignment. *)
Definition setkey_of (k : key) : setkey :=
  match k with
  | KStr s => SStr s
  | KOpt o => SOpt o
  end.

(** The order of [sorted] on names: strings compared character by
    character, a proper prefix first. *)
Definition str_le (a b : string) : Prop := String.leb a b = true.

#[export] Instance str_le_dec a b : Decision (str_le a b) :=
  decide (String.leb a b = true).

(** Lines 66-69, the generator as the list of what it yields. *)
Definition Config_keys (w : world) (self : addr) : outcome (list string) :=
  let? cfg := of_option (configs w !! self) in
  Ok (merge_sort str_le (map_to_list (c_d cfg)).*1).

Section MoreOperations.
Context `{Runtime}.

(** Lines 57-59: [self[config.option(key)] = config[key]]. The right-hand
    side is evaluated first. *)
Definition Config_copy (fuel : nat) (self config : addr) (k : key) : M unit :=
  let! v := inspect (fun w => Config_getitem fuel w config k) in
  let! o := inspect (fun w => Config_option fuel w config k) in
  Config_setitem fuel self (SOpt o) v.

(** Lines 82-86, for a name or an [Option] instance as key. *)
Definition Config_setdefault (fuel : nat) (self : addr) (k : key) (v : value) : M value :=
  let! present := inspect (fun w => Config_contains w self k) in
  let! _ := if present then ret tt else Config_setitem fuel self (setkey_of k) v in
  inspect (fun w => Config_getitem fuel w self k).

(** [for k in d: self[k] = d[k]] (lines 96-99), for the entries of [d] in
    the order of iteration. *)
Fixpoint assign_all (fuel : nat) (self : addr) (d : list (setkey * value)) : M unit :=
  match d with
  | [] => ret tt
  | (k, v) :: d' =>
      let! _ := Config_setitem fuel self k v in
      assign_all fuel self d'
  end.

(** Entries given by keyword have names as keys. *)
Definition keyword_entries (kwargs : list (string * value)) : list (setkey * value) :=
  map (fun kv => (SStr kv.1, kv.2)) kwargs.

(** What line 93 raises for [n] positional arguments. *)
Definition too_many_arguments (n : nat) : exn :=
  Exn TypeError ("update expected at most 1 arguments, got " +:+ pretty n).

(** Lines 88-99. [args] are the positional arguments, each a plain
    mapping given by its entries in the order of iteration. *)
Definition Config_update (fuel : nat) (self : addr)
    (args : list (list (setkey * value))) (kwargs : list (string * value)) : M unit :=
  let! _ := match args with
            | [] => ret tt
            | [d] => assign_all fuel self d
            | _ => raise (too_many_arguments (List.length args))
            end in
  assign_all fuel self (keyword_entries kwargs).

(** Lines 14-16, with the allocation of the instance: a scope with empty
    dictionaries, no [console] and no [_last_error], then [update]. *)
Definition Config_init (fuel : nat)
    (args : list (list (setkey * value))) (kwargs : list (string * value)) : M addr :=
  fun w =>
    let self := fresh (dom (configs w)) in
    let w0 := set_configs (insert self (mkConfig ∅ ∅ None None)) w in
    match Config_update fuel self args kwargs w0 with
    | (w', Ok _) => (w', Ok self)
    | (w', Raise e) => (w', Raise e)
    | (w', Stuck) => (w', Stuck)
    end.

End MoreOperations.

(** The key is in no scope of the chain that starts at a scope, and the
    chain ends. *)
Inductive absent_from (w : world) : addr -> string -> Prop :=
  | absent_no_console c cfg n :
      configs w !! c = Some cfg ->
      c_d cfg !! n = None ->
      c_console cfg = None ->
      absent_from w c n
  | absent_no_parent c cfg co n :
      configs w !! c = Some cfg ->
      c_d cfg !! n = None ->
      c_console cfg = Some co ->
      parent co = None ->
      absent_from w c n
  | absent_above c cfg co p n :
      configs w !! c = Some cfg ->
      c_d cfg !! n = None ->
      c_console cfg = Some co ->
      parent co = Some p ->
      absent_from w p n ->
      absent_from w c n.

(** ** Vocabulary of the properties *)

(** The canonical instance registered for a name in a scope. *)
Definition canonical (w : world) (c : addr) (n : string) : option addr :=
  instances w !! c ≫= fun reg => reg !! n.

(** The instance [Option(n)] builds at address [a]. *)
Definition fresh_option (n : string) (a : addr) : Option_obj :=
  mkOption n None false None
           (Method a default_lambda) (Method a default_lambda)
           (Method a default_lambda) None VNone false.

(** Every instance the registry names is in the heap and bears the name
    it is registered under. *)
Definition registry_sound (w : world) : Prop :=
  forall c n a, canonical w c n = Some a ->
    exists o, options w !! a = Some o /\ o_name o = n.

(** Soundness of the registry carries over from one heap to another. *)
Definition sound_to : relation world :=
  fun w w' => registry_sound w -> registry_sound w'.

(** A key has the stored value [v] in a scope: locally, or, when the
    scope has no entry for it, in the scope of the parent console. *)
Inductive stored_in (w : world) : addr -> string -> value -> Prop :=
  | stored_here c cfg n o v :
      configs w !! c = Some cfg ->
      c_d cfg !! n = Some (o, v) ->
      stored_in w c n v
  | stored_above c cfg co p n v :
      configs w !! c = Some cfg ->
      c_d cfg !! n = None ->
      c_console cfg = Some co ->
      parent co = Some p ->
      stored_in w p n v ->
      stored_in w c n v.

(** [keeps R m]: the heap after [m], whatever its outcome, is related by
    [R] to the heap before. *)
Definition keeps {A : Type} (R : relation world) (m : M A) : Prop :=
  forall w, R w (m w).1.

(** The part [f] of the heap is the same before and after. *)
Definition same {B : Type} (f : world -> B) : relation world :=
  fun w w' => f w' = f w.

(** Projections of the heap that the steps of an assignment are checked
    against. *)
Definition config_at (c : addr) (w : world) : option Config_obj := configs w !! c.

Definition store_at (c : addr) (w : world) : option (gmap string (addr * value)) :=
  c_d <$> configs w !! c.

Definition console_at (c : addr) (w : world) : option (option Console) :=
  c_console <$> configs w !! c.

(** Two heaps with the same options, the same private dictionaries and
    the same consoles. *)
Definition reads_alike (w w' : world) : Prop :=
  options w' = options w /\
  forall c, store_at c w' = store_at c w /\ console_at c w' = console_at c w.

(** The heap in which the callback has run: the inherited dictionary
    holds the value, the call is on the trace, and a raised exception is
    in [_last_error]. *)
Definition after_callback (self key : addr) (v : value) (cb : outcome value) (w : world) : world :=
  let w2 := log (EvCallback key) (set_configs (alter (with_item key v) self) w) in
  match cb with
  | Raise e => set_configs (alter (with_last_error (exn_str e)) self) w2
  | _ => w2
  end.

(** What one scope holds for one name, with the console it delegates
    through: all that a read of the name looks at in that scope. *)
Definition entry_at (c : addr) (m : string) (w : world)
  : option (option (addr * value) * option Console) :=
  (fun cfg => (c_d cfg !! m, c_console cfg)) <$> configs w !! c.

(** The inherited dictionary of a scope. *)
Definition items_at (c : addr) (w : world) : option (gmap addr value) :=
  c_items <$> configs w !! c.

(** No [Option] instance leaves the heap. *)
Definition outlives : relation world :=
  fun w w' => dom (options w) ⊆ dom (options w').

(** A hook argument the constructor accepts: [None] or a plain
    function. *)
Definition plain_hook (h : option callable) : bool :=
  match h with
  | Some (Method _ _) => false
  | _ => true
  end.

(** What [Option.input] raises for an instance without [config]. *)
Definition unbound_option (n : string) : exn :=
  Exn Exception ("Unbound option " +:+ n).

(** ** A runtime and heaps to run the model on *)

(** Formatting handles the strings without braces, and a path is rooted
    at [/]: enough for the inputs below, none of which has a brace. Of
    the characters beyond ASCII it knows the superscripts one, two and
    three (in UTF-8 the byte 194, then 185, 178 or 179), which [isdigit]
    takes for digits and [int] refuses; [lower] changes the letters [A]
    to [Z]; every other object prints as one tag. *)
Definition is_superscript_byte (c : ascii) : bool :=
  let n := nat_of_ascii c in (n =? 178) || (n =? 179) || (n =? 185).

Fixpoint digits_or_superscripts (s : string) : bool :=
  match s with
  | EmptyString => true
  | String c s' =>
      if is_digit_char c then digits_or_superscripts s'
      else if nat_of_ascii c =? 194
      then match s' with
           | String d s'' => is_superscript_byte d && digits_or_superscripts s''
           | EmptyString => false
           end
      else false
  end.

Definition plain_isdigit (s : string) : bool :=
  match s with
  | EmptyString => false
  | _ => digits_or_superscripts s
  end.

(** What [int] raises for a string it cannot read. *)
Definition invalid_literal (s : string) : exn :=
  Exn ValueError ("invalid literal for int() with base 10: '" +:+ s +:+ "'").

Definition plain_int (s : string) : outcome Z :=
  if ascii_isdigit s then Ok (decimal_value s) else Raise (invalid_literal s).

Definition plain_format (s : string) (kw : gmap string value) : option string :=
  if brace_free s then Some s else None.

Definition rooted_path (v : value) : outcome string :=
  match v with
  | VStr s => Ok ("/" +:+ s)
  | _ => Raise (Exn TypeError "expected str")
  end.

#[export, refine] Instance plain_runtime : Runtime :=
  {| str_format := plain_format; path_expand := rooted_path;
     str_isdigit := plain_isdigit; str_lower := ascii_lower;
     str_int := plain_int; object_str := fun _ => "<object>" |}.
Proof. intros s kw Hs. unfold plain_format. by rewrite Hs. Defined.

(** One scope, at address 0, without a console. *)
Definition lone_scope : world :=
  mkWorld ∅ {[ 0 := mkConfig ∅ ∅ None None ]} ∅ [].

(** The scope after [config["K"] = "42"]; the option is at address 0. *)
Definition scope_K42 : world :=
  fst (Config_setitem 2 0 (SStr "K") (VStr "42") lone_scope).

(** The scope after [config["K"] = "True"]; the option is at address 0. *)
Definition scope_True : world :=
  fst (Config_setitem 2 0 (SStr "K") (VStr "True") lone_scope).

(** A superscript two, the bytes 194 and 178 in UTF-8: a digit for
    [isdigit], no number for [int]. *)
Definition superscript_two : string := String "194" (String "178" EmptyString).

(** The scope after [config["K"] = "\u00b2"]; the option is at address 0. *)
Definition scope_superscript : world :=
  fst (Config_setitem 2 0 (SStr "K") (VStr superscript_two) lone_scope).

(** [("MODE", None, False, ["a", "b"])]: a key with choices and no
    validator of its own. *)
Definition mode_key : setkey :=
  STuple (Args "MODE" None false (CList [VStr "a"; VStr "b"]) None None None).

(** The instance [Option("MODE", None, False, ["a", "b"])] once bound to
    the scope at address 0. *)
Definition mode_option : Option_obj :=
  mkOption "MODE" None false (Some [VStr "a"; VStr "b"])
           (Method 0 default_lambda) (Method 0 choices_lambda)
           (Method 0 default_lambda) (Some 0) VNone false.

(** The heap in which the validator of [config[mode_key] = "c"] runs. *)
Definition scope_MODE_c : world :=
  fst (setitem_store 2 0 mode_key (VStr "c") lone_scope).

(** A callback that raises [Exception("boom")]. *)
Definition boom : func :=
  Func lambda_name (fun _ _ => Raise (Exn Exception "boom")).

(** A validator that refuses everything. *)
Definition refuse : func :=
  Func lambda_name (fun _ _ => Ok (VBool false)).

(** [("K", None, False, None, None, None, boom)] *)
Definition boom_key : setkey :=
  STuple (Args "K" None false CNone None None (Some (Function boom))).

Definition boom_option : Option_obj :=
  mkOption "K" None false None
           (Method 0 default_lambda) (Method 0 default_lambda)
           (Method 0 boom) (Some 0) VNone false.

Definition scope_boom : world :=
  fst (setitem_store 2 0 boom_key (VStr "x") lone_scope).

(** An unbound option at address 0 with [_reset = True] and the given
    validator and callback, next to a scope at address 0 whose console has
    no parent. *)
Definition reset_option (validate callback : func) : Option_obj :=
  mkOption "DEBUG" None false None
           (Method 0 default_lambda) (Method 0 validate) (Method 0 callback)
           None VNone true.

Definition console_scope (validate callback : func) : world :=
  mkWorld {[ 0 := reset_option validate callback ]}
          {[ 0 := mkConfig ∅ ∅ (Some (mkConsole None ∅)) None ]} ∅ [].

(** Two scopes with consoles: the console of scope 1 has the console of
    scope 0 as its parent. *)
Definition two_scopes : world :=
  mkWorld ∅ {[ 0 := mkConfig ∅ ∅ (Some (mkConsole None ∅)) None;
               1 := mkConfig ∅ ∅ (Some (mkConsole (Some 0) ∅)) None ]} ∅ [].

(** The same after [config["K"] = "42"] on the parent scope. *)
Definition family : world :=
  fst (Config_setitem 2 0 (SStr "K") (VStr "42") two_scopes).

(** Two unbound instances of the name [K] next to a scope. *)
Definition two_options : world :=
  mkWorld {[ 0 := fresh_option "K" 0; 1 := fresh_option "K" 1 ]}
          {[ 0 := mkConfig ∅ ∅ None None ]} ∅ [].

(** [("NAME", None, True)]: a required option. *)
Definition required_key : setkey :=
  STuple (Args "NAME" None true CNone None None None).

(** The scope after [config[required_key] = None]. *)
Definition scope_required : world :=
  fst (Config_setitem 2 0 required_key VNone lone_scope).

(** A transform that turns every value into ["X"]. *)
Definition to_X : func :=
  Func lambda_name (fun _ _ => Ok (VStr "X")).

(** [("K", None, False, None, to_X)] *)
Definition transform_key : setkey :=
  STuple (Args "K" None false CNone (Some (Function to_X)) None None).

(** The scope after [config[transform_key] = "abc"]. *)
Definition scope_transform : world :=
  fst (Config_setitem 2 0 transform_key (VStr "abc") lone_scope).

(** The instance [Option("K")] once bound to the scope at address 0. *)
Definition K_option : Option_obj := with_config 0 (fresh_option "K" 0).

(** * Properties *)

(** ** Reads *)

Arguments Config_getitem : simpl never.
Arguments Config_option : simpl never.

Lemma Config_getitem_S fuel w self k :
  Config_getitem (S fuel) w self k =
  let? n := key_name w k in
  let? cfg := of_option (configs w !! self) in
  match c_d cfg !! n with
  | Some (_, v) => Ok v
  | None =>
      match c_console cfg with
      | Some co =>
          match parent co with
          | Some p => Config_getitem fuel w p (KStr n)
          | None => Raise (Exn KeyError n)
          end
      | None => Raise (Exn KeyError n)
      end
  end.
Proof. reflexivity. Qed.

(** More fuel does not change a read that has an outcome. *)
Lemma Config_getitem_fuel_S fuel w self k r :
  Config_getitem fuel w self k = r -> r <> Stuck ->
  Config_getitem (S fuel) w self k = r.
Proof.
  revert self k r. induction fuel as [|fuel IH]; intros self k r Hr Hns.
  - unfold Config_getitem in Hr. congruence.
  - rewrite Config_getitem_S. rewrite Config_getitem_S in Hr.
    destruct (key_name w k) as [n| |]; simpl in Hr |- *; try done.
    destruct (configs w !! self) as [cfg|]; simpl in Hr |- *; try done.
    destruct (c_d cfg !! n) as [[o v]|]; try done.
    destruct (c_console cfg) as [co|]; try done.
    destruct (parent co) as [p|]; try done.
    by apply IH.
Qed.

Lemma Config_getitem_fuel_le fuel fuel' w self k r :
  Config_getitem fuel w self k = r -> r <> Stuck -> fuel <= fuel' ->
  Config_getitem fuel' w self k = r.
Proof.
  intros Hr Hns Hle. induction Hle as [|m Hle IH]; [done|].
  by apply Config_getitem_fuel_S.
Qed.

(** C1, as amended: for every key that has a stored value, locally or via
    the parent chain, a read through [Config.__getitem__] returns that raw
    stored value (with enough recursion depth for the chain). The resolved
    value is what [Option.value] makes of it. *)
Theorem getitem_returns_raw_value w c k n v :
  key_name w k = Ok n ->
  stored_in w c n v ->
  exists fuel0, forall fuel, fuel0 <= fuel -> Config_getitem fuel w c k = Ok v.
Proof.
  intros Hk Hst. revert k Hk.
  induction Hst as [c cfg n o v Hc Hd | c cfg co p n v Hc Hd Hco Hp _ IH];
    intros k Hk.
  - exists 1. intros fuel Hle.
    apply (Config_getitem_fuel_le 1); [|done|done].
    rewrite Config_getitem_S, Hk. simpl. rewrite Hc. simpl. by rewrite Hd.
  - destruct (IH (KStr n) eq_refl) as [fuel0 Hfuel0].
    exists (S fuel0). intros fuel Hle.
    apply (Config_getitem_fuel_le (S fuel0)); [|done|done].
    rewrite Config_getitem_S, Hk. simpl. rewrite Hc. simpl.
    rewrite Hd, Hco, Hp. by apply Hfuel0.
Qed.

Lemma getitem_returns_raw_value_witness :
  exists fuel0, forall fuel,
    fuel0 <= fuel -> Config_getitem fuel scope_K42 0 (KStr "K") = Ok (VStr "42").
Proof.
  apply (getitem_returns_raw_value scope_K42 0 (KStr "K") "K" (VStr "42")).
  - reflexivity.
  - apply (stored_here scope_K42 0 (mkConfig {[ "K" := (0, VStr "42") ]} {[ 0 := VStr "42" ]} None None) "K" 0).
    + vm_compute. reflexivity.
    + vm_compute. reflexivity.
Defined.

(** C1, as stated, fails: after [config["K"] = "42"] the read returns the
    string ["42"], while the option resolves to the integer [42]. *)
Lemma getitem_is_not_the_resolved_value :
  stored_in scope_K42 0 "K" (VStr "42") /\
  Config_getitem 1 scope_K42 0 (KStr "K") = Ok (VStr "42") /\
  Option_value 1 scope_K42 0 = Ok (VInt 42) /\
  Config_getitem 1 scope_K42 0 (KStr "K") <> Option_value 1 scope_K42 0.
Proof.
  split; [|split; [|split]].
  - apply (stored_here scope_K42 0 (mkConfig {[ "K" := (0, VStr "42") ]} {[ 0 := VStr "42" ]} None None) "K" 0);
      vm_compute; reflexivity.
  - vm_compute. reflexivity.
  - vm_compute. reflexivity.
  - vm_compute. discriminate.
Qed.

(** ** What a computation leaves unchanged *)

#[export] Instance same_refl {B : Type} (f : world -> B) : Reflexive (same f).
Proof. by intros w. Qed.

#[export] Instance same_trans {B : Type} (f : world -> B) : Transitive (same f).
Proof. unfold same. intros w1 w2 w3 H12 H23. by rewrite H23. Qed.

Section Keeps.
Context {A B : Type} (R : relation world).

Lemma keeps_ret `{!Reflexive R} (a : A) : keeps R (ret a).
Proof. intros w. simpl. reflexivity. Qed.

Lemma keeps_raise `{!Reflexive R} (e : exn) : keeps R (raise (A := A) e).
Proof. intros w. simpl. reflexivity. Qed.

Lemma keeps_inspect `{!Reflexive R} (f : world -> outcome A) : keeps R (inspect f).
Proof. intros w. simpl. reflexivity. Qed.

Lemma keeps_modify (f : world -> world) :
  (forall w, R w (f w)) -> keeps R (modify f).
Proof. intros Hf w. apply Hf. Qed.

Lemma keeps_mbind `{!Transitive R} (m : M A) (k : A -> M B) :
  keeps R m -> (forall a, keeps R (k a)) -> keeps R (mbind m k).
Proof.
  intros Hm Hk w. unfold mbind. specialize (Hm w).
  destruct (m w) as [w' [a|e|]]; simpl in *; try done.
  transitivity w'; [done|apply Hk].
Qed.

End Keeps.

Create HintDb keeps discriminated.
#[export] Hint Resolve keeps_ret keeps_raise keeps_inspect keeps_mbind : keeps.
#[export] Hint Extern 1 (Reflexive (same _)) => apply same_refl : keeps.
#[export] Hint Extern 1 (Transitive (same _)) => apply same_trans : keeps.

Ltac keeps_steps :=
  repeat (apply keeps_mbind; [apply _| |intros ?]);
  try (apply keeps_inspect; apply _);
  try (apply keeps_ret; apply _);
  try (apply keeps_raise; apply _);
  try (apply keeps_modify; intros ?; reflexivity).

Section AssignmentFrames.
Context `{Runtime}.

Lemma Option_init_keeps_configs args : keeps (same configs) (Option_init args).
Proof.
  intros w. unfold Option_init.
  destruct (let? t := _ in _) as [o|e|]; reflexivity.
Qed.

Lemma Option_init_keeps_instances args : keeps (same instances) (Option_init args).
Proof.
  intros w. unfold Option_init.
  destruct (let? t := _ in _) as [o|e|]; reflexivity.
Qed.

Lemma Option_init_keeps_trace args : keeps (same trace) (Option_init args).
Proof.
  intros w. unfold Option_init.
  destruct (let? t := _ in _) as [o|e|]; reflexivity.
Qed.

Lemma Option_bind_keeps_configs self c : keeps (same configs) (Option_bind self c).
Proof.
  intros w. unfold Option_bind.
  destruct (options w !! self) as [o|]; [|reflexivity].
  destruct (default ∅ (instances w !! c) !! o_name o); reflexivity.
Qed.

Lemma Option_bind_keeps_trace self c : keeps (same trace) (Option_bind self c).
Proof.
  intros w. unfold Option_bind.
  destruct (options w !! self) as [o|]; [|reflexivity].
  destruct (default ∅ (instances w !! c) !! o_name o); reflexivity.
Qed.

Lemma setitem_key_keeps_configs self k : keeps (same configs) (setitem_key self k).
Proof.
  unfold setitem_key. apply keeps_mbind; [apply _| |].
  - destruct k; auto using Option_init_keeps_configs with keeps.
  - intros a. apply Option_bind_keeps_configs.
Qed.

Lemma setitem_key_keeps_trace self k : keeps (same trace) (setitem_key self k).
Proof.
  unfold setitem_key. apply keeps_mbind; [apply _| |].
  - destruct k; auto using Option_init_keeps_trace with keeps.
  - intros a. apply Option_bind_keeps_trace.
Qed.

Lemma setitem_store_keeps_trace fuel self k v :
  keeps (same trace) (setitem_store fuel self k v).
Proof.
  unfold setitem_store, setitem_old_value, setitem_assign.
  apply keeps_mbind; [apply _|apply setitem_key_keeps_trace|intros key].
  keeps_steps.
Qed.

(** What a successful run of lines 34-45 leaves: the canonical instance
    is in the heap and the scope maps its name to it and to the new raw
    value; nothing else of the scopes has changed. *)
Lemma setitem_store_Ok fuel self k v w w1 key :
  setitem_store fuel self k v w = (w1, Ok key) ->
  exists o, options w1 !! key = Some o /\
    configs w1 = alter (with_d (o_name o) key v) self (configs w) /\
    is_Some (configs w !! self) /\
    instances w1 = instances (setitem_key self k w).1 /\
    trace w1 = trace w.
Proof.
  intros Hst.
  pose proof (setitem_store_keeps_trace fuel self k v w) as Htr.
  rewrite Hst in Htr. unfold same in Htr. simpl in Htr.
  unfold setitem_store, mbind in Hst.
  pose proof (setitem_key_keeps_configs self k w) as Hcf. unfold same in Hcf.
  destruct (setitem_key self k w) as [wk [a|e|]]; simpl in *; try done.
  unfold setitem_old_value, setitem_assign, mbind, inspect, modify, ret in Hst.
  destruct (configs wk !! self) as [cfg|] eqn:Hself; simpl in Hst; try done.
  destruct (options wk !! a) as [oa|] eqn:Ha; simpl in Hst; try done.
  destruct (match c_d cfg !! o_name oa with Some _ => _ | None => _ end)
    as [old| |]; simpl in Hst; try done.
  rewrite lookup_alter_eq, Ha in Hst. simpl in Hst.
  injection Hst as <- <-.
  exists (with_old_value old oa). simpl.
  rewrite lookup_alter_eq, Ha, <- Hcf, Hself. eauto.
Qed.

(** Lines 46-55 touch the heap only through the inherited dictionary and
    [_last_error] of the scope and through the calls they make. *)
Lemma setitem_finish_keeps {B : Type} (f : world -> B) fuel self k v :
  (forall e w, f (log e w) = f w) ->
  (forall g w, (forall cfg, c_d (g cfg) = c_d cfg /\ c_console (g cfg) = c_console cfg) ->
               f (set_configs (alter g self) w) = f w) ->
  keeps (same f) (setitem_finish fuel self k v).
Proof.
  intros Hlog Hcfg.
  unfold setitem_finish, setitem_validate, setitem_super, setitem_callback, setitem_reset.
  keeps_steps.
  - destruct (truthy _); [apply keeps_ret|apply keeps_raise]; apply _.
  - apply keeps_modify. intros w. by apply Hcfg.
  - intros w. destruct (call fuel w _) as [r|e|]; simpl; [apply Hlog| |done].
    unfold same. rewrite Hcfg; [apply Hlog|done].
  - destruct (o_reset _); [|apply keeps_ret; apply _].
    destruct (c_console _); [|apply keeps_raise; apply _].
    apply keeps_modify. intros w. apply Hlog.
Qed.

Lemma setitem_finish_keeps_options fuel self k v :
  keeps (same options) (setitem_finish fuel self k v).
Proof. by apply setitem_finish_keeps. Qed.

Lemma setitem_finish_keeps_instances fuel self k v :
  keeps (same instances) (setitem_finish fuel self k v).
Proof. by apply setitem_finish_keeps. Qed.

Lemma setitem_finish_keeps_store fuel self k v c :
  keeps (same (store_at c)) (setitem_finish fuel self k v).
Proof.
  apply setitem_finish_keeps; [done|]. intros g w Hg.
  unfold store_at. simpl. rewrite lookup_alter. case_decide as Hc; [|done].
  subst c. destruct (configs w !! self) as [cfg|]; [|done].
  simpl. f_equal. apply Hg.
Qed.

Lemma setitem_finish_keeps_others fuel self k v p :
  p <> self -> keeps (same (config_at p)) (setitem_finish fuel self k v).
Proof.
  intros Hp. apply setitem_finish_keeps; [done|]. intros g w _.
  unfold config_at. simpl. by rewrite lookup_alter_ne.
Qed.

(** ** Heaps that read alike *)

Lemma reads_alike_getitem fuel w w' self k :
  reads_alike w w' -> Config_getitem fuel w' self k = Config_getitem fuel w self k.
Proof.
  intros [Ho Hc]. revert self k. induction fuel as [|fuel IH]; intros self k; [done|].
  rewrite !Config_getitem_S. unfold key_name. rewrite Ho.
  destruct (match k with KStr s => _ | KOpt o => _ end) as [n| |]; simpl; try done.
  destruct (Hc self) as [Hd Hco]. unfold store_at, console_at in Hd, Hco.
  destruct (configs w' !! self) as [cfg'|], (configs w !! self) as [cfg|];
    simpl in *; try done.
  injection Hd as Hd. injection Hco as Hco. rewrite Hd, Hco.
  destruct (c_d cfg !! n) as [[o v]|]; [done|].
  destruct (c_console cfg) as [co|]; [|done].
  destruct (parent co); [apply IH|done].
Qed.

Lemma reads_alike_input fuel w w' self :
  reads_alike w w' -> Option_input fuel w' self = Option_input fuel w self.
Proof.
  intros Hw. unfold Option_input. rewrite (proj1 Hw).
  destruct (options w !! self) as [o|]; simpl; [|done].
  destruct (o_config o); [by apply reads_alike_getitem|done].
Qed.

Lemma reads_alike_value fuel w w' self :
  reads_alike w w' -> Option_value fuel w' self = Option_value fuel w self.
Proof.
  intros Hw. unfold Option_value.
  rewrite (reads_alike_input _ _ _ _ Hw), (proj1 Hw).
  destruct (options w !! self) as [o|]; simpl; [|done].
  destruct (Option_input fuel w self) as [v| |]; simpl; try done.
  destruct (o_required o && is_None v); [done|].
  destruct (o_config o) as [c|]; simpl; [|done].
  destruct (proj2 Hw c) as [Hd Hco]. unfold store_at, console_at in Hd, Hco.
  destruct (configs w' !! c) as [cfg'|], (configs w !! c) as [cfg|];
    simpl in *; try done.
  injection Hco as Hco. by rewrite Hco.
Qed.

Lemma reads_alike_call fuel w w' c :
  reads_alike w w' -> call fuel w' c = call fuel w c.
Proof.
  intros Hw. destruct c as [f|s f]; [done|]. simpl. unfold view_of.
  by rewrite (reads_alike_input _ _ _ _ Hw), (reads_alike_value _ _ _ _ Hw), (proj1 Hw).
Qed.

(** Line 48 does not change what is read. *)
Lemma with_item_reads_alike self k v w :
  reads_alike w (set_configs (alter (with_item k v) self) w).
Proof.
  split; [done|]. intros c. unfold store_at, console_at. simpl.
  rewrite lookup_alter. case_decide as Hc; [|done]. subst c.
  by destruct (configs w !! self).
Qed.

(** ** Assignment, after the write to the private dictionary *)

(** Lines 46-55 when the validator accepts and the callback returns or
    raises: the reset step runs in the heap the callback left. *)
Lemma setitem_finish_valid fuel self key v w o r :
  options w !! key = Some o ->
  call fuel w (o_validate o) = Ok r ->
  truthy r = true ->
  call fuel w (o_callback o) <> Stuck ->
  setitem_finish fuel self key v w =
  setitem_reset self key (after_callback self key v (call fuel w (o_callback o)) w).
Proof.
  intros Ho Hval Htr Hcb.
  unfold setitem_finish, setitem_validate, setitem_super, setitem_callback.
  unfold mbind, inspect, modify. rewrite Ho. simpl. rewrite Hval. simpl.
  rewrite Htr. simpl. rewrite Ho. simpl.
  rewrite (reads_alike_call _ _ _ _ (with_item_reads_alike self key v w)).
  unfold after_callback.
  destruct (call fuel w (o_callback o)) as [x|e|]; done.
Qed.

(** The reset step, from the scope as it is then. *)
Lemma setitem_reset_run self key w o cfg :
  options w !! key = Some o ->
  configs w !! self = Some cfg ->
  setitem_reset self key w =
  if o_reset o
  then match c_console cfg with
       | Some _ => (log (EvReset self) w, Ok tt)
       | None => (w, Raise no_console)
       end
  else (w, Ok tt).
Proof.
  intros Ho Hc. unfold setitem_reset, mbind, inspect. rewrite Ho, Hc. simpl.
  destruct (o_reset o); [|done]. by destruct (c_console cfg).
Qed.

(** The scope in the heap the callback left. *)
Lemma after_callback_scope self key v cb w cfg :
  configs w !! self = Some cfg ->
  exists cfg', configs (after_callback self key v cb w) !! self = Some cfg' /\
    c_d cfg' = c_d cfg /\
    c_console cfg' = c_console cfg /\
    c_items cfg' !! key = Some v /\
    (forall e, cb = Raise e -> c_last_error cfg' = Some (exn_str e)).
Proof.
  intros Hc. unfold after_callback.
  destruct cb as [x|e|]; simpl; rewrite ?lookup_alter_eq, Hc; simpl;
    eexists; (split; [reflexivity|]); simpl; rewrite lookup_insert_eq;
    repeat split; try done.
  by intros e' [= ->].
Qed.

(** C4: when the validator returns a false value the assignment raises
    [ValueError("Invalid value")], and the scope's private dictionary holds
    the new raw value under the option's name, which is what a read
    returns: the write of line 45 is not undone. [w1] is the heap in
    which the validator runs. *)
Theorem invalid_value_raises_after_store fuel self k v w w1 key o r :
  setitem_store fuel self k v w = (w1, Ok key) ->
  options w1 !! key = Some o ->
  call fuel w1 (o_validate o) = Ok r ->
  truthy r = false ->
  Config_setitem fuel self k v w = (w1, Raise (Exn ValueError "Invalid value")) /\
  (exists cfg, configs w1 !! self = Some cfg /\ c_d cfg !! o_name o = Some (key, v)) /\
  Config_getitem (S fuel) w1 self (KStr (o_name o)) = Ok v.
Proof.
  intros Hst Ho Hval Htr. split.
  - unfold Config_setitem, mbind. rewrite Hst.
    unfold setitem_finish, setitem_validate, mbind, inspect.
    rewrite Ho. simpl. rewrite Hval. simpl. by rewrite Htr.
  - apply setitem_store_Ok in Hst as (o' & Ho' & Hcf & [cfg Hself] & _).
    rewrite Ho in Ho'. injection Ho' as <-.
    assert (configs w1 !! self = Some (with_d (o_name o) key v cfg)) as Hself1
      by (by rewrite Hcf, lookup_alter_eq, Hself).
    split.
    + exists (with_d (o_name o) key v cfg).
      split; [done|]. simpl. by rewrite lookup_insert_eq.
    + rewrite Config_getitem_S. simpl. rewrite Hself1. simpl.
      by rewrite lookup_insert_eq.
Qed.

(** C5: when the callback raises, the exception is stored as text in the
    scope's [_last_error] and the caller does not see it; the private and
    the inherited dictionary hold the new raw value. The assignment
    returns, unless the option is reset-flagged on a scope without a
    console, where line 55 raises its own [AttributeError]. *)
Theorem callback_error_is_swallowed fuel self k v w w1 key o r e :
  setitem_store fuel self k v w = (w1, Ok key) ->
  options w1 !! key = Some o ->
  call fuel w1 (o_validate o) = Ok r ->
  truthy r = true ->
  call fuel w1 (o_callback o) = Raise e ->
  exists w' cfg',
    Config_setitem fuel self k v w =
      (w', if o_reset o && bool_decide (c_console cfg' = None)
           then Raise no_console else Ok tt) /\
    configs w' !! self = Some cfg' /\
    c_last_error cfg' = Some (exn_str e) /\
    c_d cfg' !! o_name o = Some (key, v) /\
    c_items cfg' !! key = Some v.
Proof.
  intros Hst Ho Hval Htr Hcb.
  unfold Config_setitem, mbind. rewrite Hst.
  rewrite (setitem_finish_valid _ _ _ _ _ _ _ Ho Hval Htr) by (by rewrite Hcb).
  apply setitem_store_Ok in Hst as (o' & Ho' & Hcf & [cfg Hself] & _).
  rewrite Ho in Ho'. injection Ho' as <-.
  assert (configs w1 !! self = Some (with_d (o_name o) key v cfg)) as Hself1
    by (by rewrite Hcf, lookup_alter_eq, Hself).
  destruct (after_callback_scope self key v (call fuel w1 (o_callback o)) w1 _ Hself1)
    as (cfg' & Hcfg' & Hd & Hco & Hit & Herr).
  assert (options (after_callback self key v (call fuel w1 (o_callback o)) w1) !! key = Some o)
    as Ho2 by (rewrite Hcb; exact Ho).
  rewrite (setitem_reset_run _ _ _ _ _ Ho2 Hcfg').
  assert (c_d cfg' !! o_name o = Some (key, v)) as Hd'
    by (rewrite Hd; simpl; by rewrite lookup_insert_eq).
  destruct (o_reset o); simpl; [destruct (c_console cfg') as [co|] eqn:Hcons|];
    eexists _, cfg'.
  - rewrite Hcons, bool_decide_eq_false_2 by done.
    split; [reflexivity|]. simpl. rewrite Hcfg'. repeat split; auto.
  - rewrite Hcons, bool_decide_eq_true_2 by done.
    split; [reflexivity|]. repeat split; auto.
  - split; [reflexivity|]. repeat split; auto.
Qed.

(** C7, as amended: when the assignment of a reset-flagged option gets
    past validation on a scope that has a console, [reset()] is called
    once, right after the callback, whether the callback returned or
    raised; these two calls are all the assignment adds to the trace. *)
Theorem reset_once_after_callback fuel self k v w w1 key o r cfg :
  setitem_store fuel self k v w = (w1, Ok key) ->
  options w1 !! key = Some o ->
  call fuel w1 (o_validate o) = Ok r ->
  truthy r = true ->
  call fuel w1 (o_callback o) <> Stuck ->
  o_reset o = true ->
  configs w1 !! self = Some cfg ->
  is_Some (c_console cfg) ->
  exists w',
    Config_setitem fuel self k v w = (w', Ok tt) /\
    trace w' = (trace w ++ [EvCallback key; EvReset self])%list.
Proof.
  intros Hst Ho Hval Htr Hcb Hreset Hself [co Hco].
  unfold Config_setitem, mbind. rewrite Hst.
  rewrite (setitem_finish_valid _ _ _ _ _ _ _ Ho Hval Htr Hcb).
  apply setitem_store_Ok in Hst as (_ & _ & _ & _ & _ & Htrace).
  destruct (after_callback_scope self key v (call fuel w1 (o_callback o)) w1 _ Hself)
    as (cfg' & Hcfg' & _ & Hco' & _).
  assert (options (after_callback self key v (call fuel w1 (o_callback o)) w1) !! key = Some o)
    as Ho2 by (unfold after_callback; by destruct (call fuel w1 (o_callback o))).
  rewrite (setitem_reset_run _ _ _ _ _ Ho2 Hcfg'), Hreset, Hco', Hco.
  eexists. split; [reflexivity|]. simpl.
  assert (trace (after_callback self key v (call fuel w1 (o_callback o)) w1)
          = (trace w1 ++ [EvCallback key])%list) as ->
    by (unfold after_callback; by destruct (call fuel w1 (o_callback o))).
  by rewrite Htrace, <- app_assoc.
Qed.

End AssignmentFrames.

(** ** Assignments run on concrete scopes *)

Lemma invalid_value_raises_after_store_witness :
  Config_setitem 2 0 mode_key (VStr "c") lone_scope
    = (scope_MODE_c, Raise (Exn ValueError "Invalid value")) /\
  (exists cfg, configs scope_MODE_c !! 0 = Some cfg /\
               c_d cfg !! o_name mode_option = Some (0, VStr "c")) /\
  Config_getitem 3 scope_MODE_c 0 (KStr (o_name mode_option)) = Ok (VStr "c").
Proof.
  apply (invalid_value_raises_after_store 2 0 mode_key (VStr "c") lone_scope
           scope_MODE_c 0 mode_option (VBool false));
    vm_compute; reflexivity.
Defined.

Lemma callback_error_is_swallowed_witness :
  exists w' cfg',
    Config_setitem 2 0 boom_key (VStr "x") lone_scope =
      (w', if o_reset boom_option && bool_decide (c_console cfg' = None)
           then Raise no_console else Ok tt) /\
    configs w' !! 0 = Some cfg' /\
    c_last_error cfg' = Some (exn_str (Exn Exception "boom")) /\
    c_d cfg' !! o_name boom_option = Some (0, VStr "x") /\
    c_items cfg' !! 0 = Some (VStr "x").
Proof.
  apply (callback_error_is_swallowed 2 0 boom_key (VStr "x") lone_scope
           scope_boom 0 boom_option (VObj 0) (Exn Exception "boom"));
    vm_compute; reflexivity.
Defined.

Lemma reset_once_after_callback_witness :
  exists w',
    Config_setitem 2 0 (SOpt 0) (VStr "x") (console_scope default_lambda boom) = (w', Ok tt) /\
    trace w' = (trace (console_scope default_lambda boom) ++ [EvCallback 0; EvReset 0])%list.
Proof.
  apply (reset_once_after_callback 2 0 (SOpt 0) (VStr "x")
           (console_scope default_lambda boom)
           (fst (setitem_store 2 0 (SOpt 0) (VStr "x") (console_scope default_lambda boom)))
           0 (with_config 0 (reset_option default_lambda boom)) (VObj 0)
           (mkConfig {[ "DEBUG" := (0, VStr "x") ]} ∅ (Some (mkConsole None ∅)) None)).
  - vm_compute. reflexivity.
  - vm_compute. reflexivity.
  - vm_compute. reflexivity.
  - reflexivity.
  - vm_compute. discriminate.
  - reflexivity.
  - vm_compute. reflexivity.
  - simpl. eauto.
Defined.

(** C7, as stated, fails: an option with [_reset = True] whose validator
    refuses the value. The assignment raises at line 47 and [reset()] is
    not called at all. *)
Lemma no_reset_when_validation_fails :
  o_reset (reset_option refuse default_lambda) = true /\
  snd (Config_setitem 2 0 (SOpt 0) (VStr "x") (console_scope refuse default_lambda))
    = Raise (Exn ValueError "Invalid value") /\
  trace (fst (Config_setitem 2 0 (SOpt 0) (VStr "x") (console_scope refuse default_lambda))) = [].
Proof. vm_compute. repeat split. Qed.

(** ** The registry of canonical instances *)

#[export] Instance sound_to_refl : Reflexive sound_to.
Proof. intros w Hw. exact Hw. Qed.

#[export] Instance sound_to_trans : Transitive sound_to.
Proof. unfold sound_to. intros w1 w2 w3 H12 H23. auto. Qed.

Lemma canonical_default w c n :
  default ∅ (instances w !! c) !! n = canonical w c n.
Proof. unfold canonical. by destruct (instances w !! c). Qed.

Lemma registry_sound_no_instances w : instances w = ∅ -> registry_sound w.
Proof. intros Hi c n a. unfold canonical. by rewrite Hi, lookup_empty. Qed.

Lemma fresh_address_unused w : options w !! fresh (dom (options w)) = None.
Proof. apply not_elem_of_dom, is_fresh. Qed.

Lemma Option_init_name_only n w :
  Option_init (name_only n) w =
  (set_options (insert (fresh (dom (options w)))
                       (fresh_option n (fresh (dom (options w))))) w,
   Ok (fresh (dom (options w)))).
Proof. reflexivity. Qed.

(** A new instance leaves the ones in the heap as they are. *)
Lemma Option_init_old_options args w a o :
  options w !! a = Some o -> options (Option_init args w).1 !! a = Some o.
Proof.
  intros Ha. unfold Option_init.
  destruct (let? t := _ in _) as [o'|e|]; simpl; try done.
  rewrite lookup_insert_ne; [done|]. intros <-.
  by rewrite fresh_address_unused in Ha.
Qed.

Lemma Option_init_sound args : keeps sound_to (Option_init args).
Proof.
  intros w Hs c n a Hc.
  pose proof (Option_init_keeps_instances args w) as Hi. unfold same in Hi.
  unfold canonical in Hc. rewrite Hi in Hc.
  destruct (Hs c n a Hc) as (o & Ho & Hn). exists o. split; [|done].
  by apply Option_init_old_options.
Qed.

(** Binding registers the instance under its name unless the name is
    taken, and returns the registered one. *)
Lemma Option_bind_run self c w o :
  options w !! self = Some o ->
  exists w1 canon,
    Option_bind self c w = (w1, Ok canon) /\
    canon = default self (canonical w c (o_name o)) /\
    canonical w1 c (o_name o) = Some canon /\
    options w1 = alter (with_config c) canon (options w).
Proof.
  intros Ho. unfold Option_bind. rewrite Ho, canonical_default.
  destruct (canonical w c (o_name o)) as [canon|] eqn:Hcan; simpl;
    eexists _, _; (split; [reflexivity|]); (split; [reflexivity|]);
    (split; [|reflexivity]); unfold canonical; simpl;
    rewrite lookup_insert_eq; simpl.
  - by rewrite canonical_default.
  - by rewrite lookup_insert_eq.
Qed.

Lemma Option_bind_sound self c : keeps sound_to (Option_bind self c).
Proof.
  intros w Hs c' n a Hc.
  unfold Option_bind in Hc |- *.
  destruct (options w !! self) as [o|] eqn:Ho; [|by apply (Hs c' n a)].
  rewrite canonical_default in Hc |- *.
  destruct (canonical w c (o_name o)) as [canon|] eqn:Hcan; simpl in *.
  - assert (canonical w c' n = Some a) as Hc'.
    { unfold canonical in Hc |- *. simpl in Hc.
      destruct (decide (c = c')) as [<-|Hne].
      - rewrite lookup_insert_eq in Hc. simpl in Hc.
        by rewrite canonical_default in Hc.
      - by rewrite lookup_insert_ne in Hc. }
    destruct (Hs c' n a Hc') as (oa & Hoa & Hn).
    rewrite lookup_alter. case_decide as Heq.
    + subst a. rewrite Hoa. simpl. eauto.
    + eauto.
  - unfold canonical in Hc. simpl in Hc.
    destruct (decide (c = c')) as [<-|Hne].
    + rewrite lookup_insert_eq in Hc. simpl in Hc.
      destruct (decide (o_name o = n)) as [<-|Hnn].
      * rewrite lookup_insert_eq in Hc. injection Hc as <-.
        rewrite lookup_alter_eq, Ho. simpl. eauto.
      * rewrite lookup_insert_ne in Hc by done.
        rewrite canonical_default in Hc.
        destruct (Hs c n a Hc) as (oa & Hoa & Hn).
        rewrite lookup_alter. case_decide as Heq.
        -- subst a. rewrite Hoa. simpl. eauto.
        -- eauto.
    + rewrite lookup_insert_ne in Hc by done.
      destruct (Hs c' n a Hc) as (oa & Hoa & Hn).
      rewrite lookup_alter. case_decide as Heq.
      * subst a. rewrite Hoa. simpl. eauto.
      * eauto.
Qed.

Lemma sound_to_same w w' :
  options w' = options w -> instances w' = instances w -> sound_to w w'.
Proof.
  intros Ho Hi Hs c n a Hc. unfold canonical in Hc. rewrite Hi in Hc.
  rewrite Ho. exact (Hs c n a Hc).
Qed.

Lemma sound_to_alter_options g a w :
  (forall o, o_name (g o) = o_name o) ->
  sound_to w (set_options (alter g a) w).
Proof.
  intros Hg Hs c n a' Hc. destruct (Hs c n a' Hc) as (o & Ho & Hn).
  simpl. rewrite lookup_alter. case_decide as Heq; [|eauto].
  subst a'. rewrite Ho. simpl. exists (g o). by rewrite Hg.
Qed.

Section RegistryInvariant.
Context `{Runtime}.

Lemma setitem_key_sound self k : keeps sound_to (setitem_key self k).
Proof.
  unfold setitem_key. apply keeps_mbind; [apply _| |intros a; apply Option_bind_sound].
  destruct k; [apply keeps_ret; apply _|apply Option_init_sound..].
Qed.

Lemma setitem_finish_sound fuel self k v : keeps sound_to (setitem_finish fuel self k v).
Proof.
  intros w. apply sound_to_same.
  - apply setitem_finish_keeps_options.
  - apply setitem_finish_keeps_instances.
Qed.

(** An assignment keeps the registry sound, whatever its outcome. *)
Lemma Config_setitem_sound fuel self k v : keeps sound_to (Config_setitem fuel self k v).
Proof.
  unfold Config_setitem, setitem_store, setitem_old_value, setitem_assign.
  apply keeps_mbind; [apply _| |intros a; apply setitem_finish_sound].
  apply keeps_mbind; [apply _|apply setitem_key_sound|intros key].
  keeps_steps.
  - apply keeps_modify. intros w. by apply sound_to_alter_options.
  - apply keeps_modify. intros w. by apply sound_to_same.
Qed.

(** The rest of an assignment does not touch the registry. *)
Lemma Config_setitem_instances fuel self k v w :
  instances (Config_setitem fuel self k v w).1 = instances (setitem_key self k w).1.
Proof.
  unfold Config_setitem, setitem_store. unfold mbind at 1 2.
  destruct (setitem_key self k w) as [wk [key|e|]]; simpl; try done.
  assert (keeps (same instances)
            (let! x := (let! _ := setitem_old_value fuel self key in
                        let! _ := setitem_assign self key v in ret key) in
             setitem_finish fuel self x v)) as Hk.
  { apply keeps_mbind; [apply _| |intros a; apply setitem_finish_keeps_instances].
    unfold setitem_old_value, setitem_assign. keeps_steps. }
  apply (Hk wk).
Qed.

(** Lines 34-41 for a plain name, on a sound registry: the canonical
    instance is in the heap under that name and is the registered one. *)
Lemma setitem_key_name self n w :
  registry_sound w ->
  exists wk key o,
    setitem_key self (SStr n) w = (wk, Ok key) /\
    key = default (fresh (dom (options w))) (canonical w self n) /\
    options wk !! key = Some o /\ o_name o = n /\
    canonical wk self n = Some key.
Proof.
  intros Hs. unfold setitem_key, mbind. rewrite Option_init_name_only.
  set (tmp := fresh (dom (options w))).
  set (w0 := set_options (insert tmp (fresh_option n tmp)) w).
  assert (options w0 !! tmp = Some (fresh_option n tmp)) as Htmp
    by apply lookup_insert_eq.
  destruct (Option_bind_run tmp self w0 _ Htmp) as (wk & key & Hb & Hkey & Hcan & Hopts).
  simpl in Hkey, Hcan. change (canonical w0 self n) with (canonical w self n) in Hkey.
  exists wk, key. rewrite Hb, Hopts.
  destruct (canonical w self n) as [canon|] eqn:Hreg; simpl in Hkey; subst key.
  - destruct (Hs self n canon Hreg) as (oc & Hoc & Hn).
    exists (with_config self oc). repeat split; auto.
    rewrite lookup_alter_eq. subst w0. simpl.
    rewrite lookup_insert_ne; [by rewrite Hoc|].
    intros <-. subst tmp. by rewrite fresh_address_unused in Hoc.
  - exists (with_config self (fresh_option n tmp)). repeat split; auto.
    by rewrite lookup_alter_eq, Htmp.
Qed.

End RegistryInvariant.

Section Scopes.
Context `{Runtime}.

(** Lines 34-41 for a plain name: the instance registered for the name
    if there is one, the new instance otherwise; it is the registered one
    afterwards. *)
Lemma setitem_key_canonical self n w :
  exists wk key,
    setitem_key self (SStr n) w = (wk, Ok key) /\
    key = default (fresh (dom (options w))) (canonical w self n) /\
    canonical wk self n = Some key.
Proof.
  unfold setitem_key, mbind. rewrite Option_init_name_only.
  set (tmp := fresh (dom (options w))).
  set (w0 := set_options (insert tmp (fresh_option n tmp)) w).
  assert (options w0 !! tmp = Some (fresh_option n tmp)) as Htmp
    by apply lookup_insert_eq.
  destruct (Option_bind_run tmp self w0 _ Htmp) as (wk & key & Hb & Hkey & Hcan & _).
  exists wk, key. by rewrite Hb.
Qed.

(** C2: two instances of one name bound to one scope come back as one
    and the same instance, which is the registered one; and two
    assignments of one plain name to a scope work on one and the same
    canonical instance, still the registered one after both. *)
Theorem same_name_binds_to_one_instance fuel w c n :
  (forall a1 a2 o1 o2,
      options w !! a1 = Some o1 -> options w !! a2 = Some o2 ->
      o_name o1 = n -> o_name o2 = n ->
      exists canon w1 w2,
        Option_bind a1 c w = (w1, Ok canon) /\
        Option_bind a2 c w1 = (w2, Ok canon) /\
        canonical w2 c n = Some canon) /\
  (forall v1 v2,
      exists canon wk1 wk2,
        setitem_key c (SStr n) w = (wk1, Ok canon) /\
        setitem_key c (SStr n) (Config_setitem fuel c (SStr n) v1 w).1 = (wk2, Ok canon) /\
        canonical (Config_setitem fuel c (SStr n) v2
                     (Config_setitem fuel c (SStr n) v1 w).1).1 c n = Some canon).
Proof.
  split.
  - intros a1 a2 o1 o2 Ho1 Ho2 Hn1 Hn2.
    destruct (Option_bind_run a1 c w o1 Ho1) as (w1 & canon & Hb1 & _ & Hcan1 & Hopts1).
    rewrite Hn1 in Hcan1.
    assert (exists o2', options w1 !! a2 = Some o2' /\ o_name o2' = n) as (o2' & Ho2' & Hn2').
    { rewrite Hopts1, lookup_alter.
      case_decide as Heq; [subst a2|]; rewrite Ho2; simpl; eauto. }
    destruct (Option_bind_run a2 c w1 o2' Ho2') as (w2 & canon2 & Hb2 & Hk2 & Hcan2 & _).
    rewrite Hn2' in Hk2, Hcan2. rewrite Hcan1 in Hk2. simpl in Hk2. subst canon2.
    by exists canon, w1, w2.
  - intros v1 v2.
    destruct (setitem_key_canonical c n w) as (wk1 & canon & Hk1 & _ & Hcan1).
    set (w1 := (Config_setitem fuel c (SStr n) v1 w).1).
    assert (canonical w1 c n = Some canon) as Hreg1.
    { unfold canonical, w1. rewrite Config_setitem_instances, Hk1. exact Hcan1. }
    destruct (setitem_key_canonical c n w1) as (wk2 & key2 & Hk2 & Hkey2 & Hcan2).
    rewrite Hreg1 in Hkey2. simpl in Hkey2. subst key2.
    exists canon, wk1, wk2. repeat split; try done.
    unfold canonical. rewrite Config_setitem_instances, Hk2. exact Hcan2.
Qed.

(** Lines 34-45 for a plain name the scope has no entry for: the write
    goes through. *)
Lemma setitem_store_new_name fuel c n v w cfg :
  registry_sound w ->
  configs w !! c = Some cfg ->
  c_d cfg !! n = None ->
  exists w1 key,
    setitem_store fuel c (SStr n) v w = (w1, Ok key) /\
    configs w1 = alter (with_d n key v) c (configs w).
Proof.
  intros Hs Hc Hd.
  destruct (setitem_key_name c n w Hs) as (wk & key & o & Hk & _ & Ho & Hn & _).
  pose proof (setitem_key_keeps_configs c (SStr n) w) as Hcf.
  rewrite Hk in Hcf. unfold same in Hcf. simpl in Hcf.
  unfold setitem_store, mbind. rewrite Hk.
  unfold setitem_old_value, setitem_assign, mbind, inspect, modify, ret.
  exists (set_configs (alter (with_d n key v) c)
            (set_options (alter (with_old_value VNone) key) wk)), key.
  split; [|simpl; by rewrite Hcf].
  rewrite Hcf, Hc. simpl. rewrite Ho. simpl. rewrite Hn, Hd. simpl.
  rewrite lookup_alter_eq, Ho. simpl. by rewrite Hn.
Qed.

(** C3: a key a scope has no entry for is read from the scope of the
    parent console, one level of the chain at a time, and the read raises
    [KeyError] when there is no parent; assigning the key in the child
    then makes the child read the new value and changes no other scope. *)
Theorem absent_key_reads_parent_until_shadowed fuel w c cfg n :
  configs w !! c = Some cfg ->
  c_d cfg !! n = None ->
  (forall co p, c_console cfg = Some co -> parent co = Some p ->
     Config_getitem (S fuel) w c (KStr n) = Config_getitem fuel w p (KStr n)) /\
  (c_console cfg = None \/ (exists co, c_console cfg = Some co /\ parent co = None) ->
     Config_getitem (S fuel) w c (KStr n) = Raise (Exn KeyError n)) /\
  (registry_sound w ->
   forall v, let w' := (Config_setitem fuel c (SStr n) v w).1 in
     Config_getitem (S fuel) w' c (KStr n) = Ok v /\
     forall p, p <> c -> configs w' !! p = configs w !! p).
Proof.
  intros Hc Hd. split; [|split].
  - intros co p Hco Hp. rewrite Config_getitem_S. simpl. rewrite Hc. simpl.
    by rewrite Hd, Hco, Hp.
  - intros Hnone. rewrite Config_getitem_S. simpl. rewrite Hc. simpl. rewrite Hd.
    destruct Hnone as [->|(co & -> & ->)]; done.
  - intros Hs v w'.
    destruct (setitem_store_new_name fuel c n v w cfg Hs Hc Hd) as (w1 & key & Hst & Hcf).
    assert (w' = (setitem_finish fuel c key v w1).1) as Hw'
      by (unfold w', Config_setitem, mbind; by rewrite Hst).
    split.
    + pose proof (setitem_finish_keeps_store fuel c key v c w1) as Hkeep.
      unfold same, store_at in Hkeep. rewrite <- Hw', Hcf, lookup_alter_eq, Hc in Hkeep.
      rewrite Config_getitem_S. simpl.
      destruct (configs w' !! c) as [cfg'|]; [|done]. simpl in Hkeep |- *.
      injection Hkeep as ->. by rewrite lookup_insert_eq.
    + intros p Hp.
      pose proof (setitem_finish_keeps_others fuel c key v p Hp w1) as Hkeep.
      unfold same, config_at in Hkeep. rewrite <- Hw' in Hkeep.
      by rewrite Hkeep, Hcf, lookup_alter_ne.
Qed.

End Scopes.

(** ** Scopes and instances run on concrete heaps *)

Lemma registry_sound_family : registry_sound family.
Proof.
  apply (Config_setitem_sound 2 0 (SStr "K") (VStr "42") two_scopes).
  by apply registry_sound_no_instances.
Qed.

Lemma same_name_binds_to_one_instance_witness :
  exists canon w1 w2,
    Option_bind 0 0 two_options = (w1, Ok canon) /\
    Option_bind 1 0 w1 = (w2, Ok canon) /\
    canonical w2 0 "K" = Some canon.
Proof.
  apply (proj1 (same_name_binds_to_one_instance 0 two_options 0 "K")
           0 1 (fresh_option "K" 0) (fresh_option "K" 1));
    reflexivity.
Defined.

Lemma absent_key_reads_parent_until_shadowed_witness :
  Config_getitem 2 family 1 (KStr "K") = Config_getitem 1 family 0 (KStr "K") /\
  forall v, let w' := (Config_setitem 1 1 (SStr "K") v family).1 in
    Config_getitem 2 w' 1 (KStr "K") = Ok v /\
    forall p, p <> 1 -> configs w' !! p = configs family !! p.
Proof.
  destruct (absent_key_reads_parent_until_shadowed 1 family 1
              (mkConfig ∅ ∅ (Some (mkConsole (Some 0) ∅)) None) "K")
    as (Hup & _ & Hset).
  - vm_compute. reflexivity.
  - reflexivity.
  - split.
    + apply (Hup (mkConsole (Some 0) ∅) 0); reflexivity.
    + apply Hset, registry_sound_family.
Defined.

(** ** Strings *)

(** Without a brace there is no placeholder. *)
Lemma brace_free_no_placeholder s :
  brace_free s = true -> findall_placeholders s = [].
Proof.
  unfold findall_placeholders, brace_free. induction s as [|c s IH]; simpl; [done|].
  intros [[Hc _]%andb_prop Hs]%andb_prop.
  apply negb_true_iff in Hc. rewrite Hc. by apply IH.
Qed.

(** ** The value pipeline *)

Section PipelineFacts.
Context `{Runtime}.

(** Template expansion leaves values other than strings, and strings
    without braces, as they are. *)
Lemma expand_template_not_str co v :
  (forall s, v <> VStr s) -> expand_template co v = v.
Proof.
  intros Hv. unfold expand_template.
  destruct (findall_placeholders (py_str v)), co, v; try done;
    exfalso; by eapply Hv.
Qed.

Lemma expand_template_brace_free co s :
  brace_free s = true -> expand_template co (VStr s) = VStr s.
Proof.
  intros Hs. unfold expand_template. simpl.
  rewrite (brace_free_no_placeholder s Hs). simpl.
  by rewrite str_format_plain.
Qed.

(** The coercion stage. A string of digits becomes what [int] reads, and
    raises what [int] raises. *)
Lemma coerce_digits s n :
  str_isdigit s = true -> str_int s = Ok n -> coerce (VStr s) = Ok (VInt n).
Proof. intros Hs Hn. unfold coerce, py_int. by rewrite Hs, Hn. Qed.

Lemma coerce_digits_refused s e :
  str_isdigit s = true -> str_int s = Raise e -> coerce (VStr s) = Raise e.
Proof. intros Hs Hn. unfold coerce, py_int. by rewrite Hs, Hn. Qed.

Lemma coerce_boolean_word s :
  str_isdigit s = false ->
  str_lower s = "true" \/ str_lower s = "false" ->
  coerce (VStr s) = Ok (VBool (String.eqb (str_lower s) "true")).
Proof.
  intros Hd Hs. unfold coerce. simpl. rewrite Hd. simpl.
  by destruct Hs as [-> | ->].
Qed.

Lemma coerce_not_str v : (forall s, v <> VStr s) -> coerce v = Ok v.
Proof. intros Hv. destruct v; try done. exfalso. by eapply Hv. Qed.

Lemma coerce_other_str s :
  str_isdigit s = false -> str_lower s <> "true" -> str_lower s <> "false" ->
  coerce (VStr s) = Ok (VStr s).
Proof.
  intros Hd Ht Hf. unfold coerce. simpl. rewrite Hd. simpl.
  destruct (String.eqb_spec (str_lower s) "false"); [done|].
  destruct (String.eqb_spec (str_lower s) "true"); done.
Qed.

(** The raw value of an option whose scope holds an entry for its name. *)
Lemma Option_input_local fuel w a o c cfg holder v :
  options w !! a = Some o ->
  o_config o = Some c ->
  configs w !! c = Some cfg ->
  c_d cfg !! o_name o = Some (holder, v) ->
  Option_input (S fuel) w a = Ok v.
Proof.
  intros Ho Hc Hcfg Hd. unfold Option_input. rewrite Ho. simpl. rewrite Hc.
  rewrite Config_getitem_S. simpl. rewrite Ho. simpl. rewrite Hcfg. simpl.
  by rewrite Hd.
Qed.

(** A hook stored as a bound method is not called by [Option.value]. *)
Lemma apply_transform_bound_method s f v : apply_transform (Method s f) v = Ok v.
Proof. reflexivity. Qed.

(** What [Option.value] does up to the transform: the raw value goes
    through the template, path and coercion stages, and what one of them
    raises leaves [Option.value]. *)
Lemma Option_value_stages fuel w a o c cfg holder v :
  options w !! a = Some o ->
  o_config o = Some c ->
  configs w !! c = Some cfg ->
  c_d cfg !! o_name o = Some (holder, v) ->
  (o_required o = true -> v <> VNone) ->
  Option_value (S fuel) w a =
  let? x := resolve_path (o_name o) (expand_template (c_console cfg) v) in
  let? y := coerce x in
  apply_transform (o_transform o) y.
Proof.
  intros Ho Hc Hcfg Hd Hreq. unfold Option_value.
  rewrite (Option_input_local fuel w a o c cfg holder v Ho Hc Hcfg Hd), Ho. simpl.
  assert (o_required o && is_None v = false) as ->.
  { destruct (o_required o); [|done]. destruct v; try done. by destruct Hreq. }
  rewrite Hc. simpl. by rewrite Hcfg.
Qed.

(** C8: the coercion stage does not give every raw string a value.
    Where [isdigit] holds of the raw string and [int] cannot read it (a
    superscript two), what [int] raises at line 190 is not caught, the
    handler of line 193 being for [AttributeError], and leaves
    [Option.value]: the option resolves neither to an integer nor to the
    string, whatever its transform. *)
Theorem unreadable_digits_make_value_raise fuel w a o c cfg holder s e :
  options w !! a = Some o ->
  o_config o = Some c ->
  configs w !! c = Some cfg ->
  c_d cfg !! o_name o = Some (holder, VStr s) ->
  is_path_name (o_name o) = false ->
  brace_free s = true ->
  str_isdigit s = true ->
  str_int s = Raise e ->
  Option_value (S fuel) w a = Raise e.
Proof.
  intros Ho Hc Hcfg Hd Hname Hb Hs He.
  rewrite (Option_value_stages fuel w a o c cfg holder (VStr s) Ho Hc Hcfg Hd)
    by discriminate.
  unfold resolve_path. rewrite Hname. simpl.
  by rewrite (expand_template_brace_free _ s Hb), (coerce_digits_refused s e Hs He).
Qed.

End PipelineFacts.

(** ** The value pipeline and the constructor on concrete heaps *)

Lemma unreadable_digits_make_value_raise_witness :
  snd (Config_setitem 2 0 (SStr "K") (VStr superscript_two) lone_scope) = Ok tt /\
  Option_value 2 scope_superscript 0 = Raise (invalid_literal superscript_two) /\
  snd (Config_setitem 2 0 (SStr "K") (VStr "1") scope_superscript)
    = Raise (invalid_literal superscript_two).
Proof.
  split; [vm_compute; reflexivity|].
  split; [|vm_compute; reflexivity].
  apply (unreadable_digits_make_value_raise 1 scope_superscript 0 K_option 0
           (mkConfig {[ "K" := (0, VStr superscript_two) ]}
                     {[ 0 := VStr superscript_two ]} None None)
           0 superscript_two (invalid_literal superscript_two));
    vm_compute; reflexivity.
Defined.

(** ** Hooks are stored as bound methods *)

(** Every hook of an instance the constructor returns is a method bound
    to that instance. *)
Lemma Option_init_hooks_bound args w w' a :
  Option_init args w = (w', Ok a) ->
  exists o ft fv fc,
    options w' !! a = Some o /\
    o_transform o = Method a ft /\
    o_validate o = Method a fv /\
    o_callback o = Method a fc /\
    (forall f, a_transform args = Some (Function f) -> ft = f).
Proof.
  unfold Option_init. intros Hinit.
  destruct (Option_set_func _ (a_transform args) _) as [t| |] eqn:Ht; simpl in Hinit; try done.
  destruct (Option_set_func _ _ "validate") as [v| |] eqn:Hv; simpl in Hinit; try done.
  destruct (Option_set_func _ (a_callback args) _) as [cb| |] eqn:Hcb; simpl in Hinit; try done.
  injection Hinit as <- <-.
  unfold Option_set_func in Ht, Hv, Hcb.
  destruct (match a_transform args with Some f => f | None => _ end) as [ft|] eqn:Et; [|done].
  destruct (match match a_validate args with Some _ => _ | None => _ end with
            | Some f => f | None => _ end) as [fv|]; [|done].
  destruct (match a_callback args with Some f => f | None => _ end) as [fc|]; [|done].
  injection Ht as <-. injection Hv as <-. injection Hcb as <-.
  eexists _, ft, fv, fc. simpl. rewrite lookup_insert_eq.
  repeat split; try reflexivity.
  intros f Hf. rewrite Hf in Et. by injection Et.
Qed.

(** [copy()] hands the bound method to the constructor, which refuses
    anything but a plain function. *)
Lemma Option_copy_bound_transform w a o s f :
  options w !! a = Some o ->
  o_transform o = Method s f ->
  Option_copy a w = (w, Raise (bad_lambda "transform")).
Proof.
  intros Ho Ht. unfold Option_copy, Option_init. rewrite Ho. simpl.
  by rewrite Ht.
Qed.

(** C10, on the code: [copy()] of an instance the constructor returned
    does not return a new instance; it raises
    [Exception("Bad transform lambda")] and leaves the heap as it is. *)
Theorem copy_of_constructed_option_raises args w w' a :
  Option_init args w = (w', Ok a) ->
  Option_copy a w' = (w', Raise (bad_lambda "transform")).
Proof.
  intros Hinit.
  destruct (Option_init_hooks_bound args w w' a Hinit) as (o & ft & _ & _ & Ho & Ht & _).
  by apply (Option_copy_bound_transform w' a o a ft).
Qed.

Lemma copy_of_constructed_option_raises_witness :
  Option_copy 0 (fst (Option_init (name_only "K") empty_world))
  = (fst (Option_init (name_only "K") empty_world), Raise (bad_lambda "transform")).
Proof.
  apply (copy_of_constructed_option_raises (name_only "K") empty_world).
  reflexivity.
Defined.

(** C9, on the code: the option is built with the transform [to_X],
    which turns every value into ["X"]; the constructor stores it as a
    bound method, and the option set to ["abc"] resolves to ["abc"]: the
    transform is not applied. *)
Theorem transform_hook_is_not_applied :
  snd (Config_setitem 2 0 transform_key (VStr "abc") lone_scope) = Ok tt /\
  o_transform <$> options scope_transform !! 0 = Some (Method 0 to_X) /\
  (forall args, fn_call to_X args = Ok (VStr "X")) /\
  Option_value 1 scope_transform 0 = Ok (VStr "abc").
Proof. vm_compute. repeat split. Qed.

(** A required option whose raw value is [None] does not resolve. *)
Lemma required_undefined_raises `{Runtime} fuel w a o :
  options w !! a = Some o ->
  o_required o = true ->
  Option_input fuel w a = Ok VNone ->
  Option_value fuel w a = Raise (must_be_defined (o_name o)).
Proof.
  intros Ho Hreq Hin. unfold Option_value. rewrite Ho, Hin. simpl. by rewrite Hreq.
Qed.


(** C6, on the code: a required option set to [None] does not resolve;
    assigning [0] to it then raises the same [ValueError] at line 43, the
    scope still holds [None], and the option still does not resolve. *)
Theorem required_option_cannot_be_reassigned :
  snd (Config_setitem 2 0 required_key VNone lone_scope) = Ok tt /\
  Option_value 1 scope_required 0 = Raise (must_be_defined "NAME") /\
  snd (Config_setitem 2 0 (SStr "NAME") (VInt 0) scope_required)
    = Raise (must_be_defined "NAME") /\
  Config_getitem 1 (fst (Config_setitem 2 0 (SStr "NAME") (VInt 0) scope_required))
                 0 (KStr "NAME") = Ok VNone /\
  Option_value 1 (fst (Config_setitem 2 0 (SStr "NAME") (VInt 0) scope_required)) 0
    = Raise (must_be_defined "NAME").
Proof. vm_compute. repeat split. Qed.

(** * Further properties of the module *)

(** ** [Config.option] and missing keys *)

Lemma Config_option_S fuel w self k :
  Config_option (S fuel) w self k =
  let? n := key_name w k in
  let? cfg := of_option (configs w !! self) in
  match c_d cfg !! n with
  | Some (o, _) => Ok o
  | None =>
      match c_console cfg with
      | Some co =>
          match parent co with
          | Some p => Config_option fuel w p (KStr n)
          | None => Raise (Exn KeyError n)
          end
      | None => Raise (Exn KeyError n)
      end
  end.
Proof. reflexivity. Qed.

(** [config.option(key)] and [config[key]] succeed together and return
    the two halves of one entry of one private dictionary; they raise the
    same [KeyError] together. *)
Theorem option_and_raw_value_come_together fuel w c k :
  match Config_option fuel w c k, Config_getitem fuel w c k with
  | Ok o, Ok v =>
      exists c' cfg n,
        key_name w k = Ok n /\ configs w !! c' = Some cfg /\
        c_d cfg !! n = Some (o, v)
  | Raise e1, Raise e2 => e1 = e2 /\ exists n, key_name w k = Ok n /\ e1 = Exn KeyError n
  | Stuck, Stuck => True
  | _, _ => False
  end.
Proof.
  revert c k. induction fuel as [|fuel IH]; intros c k; [done|].
  rewrite Config_option_S, Config_getitem_S.
  destruct (key_name w k) as [n| |] eqn:Hk; simpl; [| |done].
  2:{ destruct k as [s|o]; simpl in Hk; [done|].
      destruct (options w !! o); simpl in Hk; done. }
  destruct (configs w !! c) as [cfg|] eqn:Hc; simpl; [|done].
  destruct (c_d cfg !! n) as [[o v]|] eqn:Hd; [by exists c, cfg, n|].
  destruct (c_console cfg) as [co|]; [|by eauto].
  destruct (parent co) as [p|]; [|by eauto].
  specialize (IH p (KStr n)).
  destruct (Config_option fuel w p (KStr n)), (Config_getitem fuel w p (KStr n));
    try done.
Qed.

(** A read of a key that no scope of the chain holds raises [KeyError]
    with the key as argument, once the recursion depth covers the chain. *)
Theorem missing_key_raises_KeyError w c n :
  absent_from w c n ->
  exists fuel0, forall fuel,
    fuel0 <= fuel -> Config_getitem fuel w c (KStr n) = Raise (Exn KeyError n).
Proof.
  induction 1 as [c cfg n Hc Hd Hco | c cfg co n Hc Hd Hco Hp
                 | c cfg co p n Hc Hd Hco Hp _ [fuel0 IH]].
  - exists 1. intros fuel Hle. apply (Config_getitem_fuel_le 1); [|done|done].
    rewrite Config_getitem_S. simpl. rewrite Hc. simpl. by rewrite Hd, Hco.
  - exists 1. intros fuel Hle. apply (Config_getitem_fuel_le 1); [|done|done].
    rewrite Config_getitem_S. simpl. rewrite Hc. simpl. by rewrite Hd, Hco, Hp.
  - exists (S fuel0). intros fuel Hle.
    apply (Config_getitem_fuel_le (S fuel0)); [|done|done].
    rewrite Config_getitem_S. simpl. rewrite Hc. simpl. rewrite Hd, Hco, Hp.
    by apply IH.
Qed.

Lemma missing_key_raises_KeyError_witness :
  exists fuel0, forall fuel,
    fuel0 <= fuel -> Config_getitem fuel family 1 (KStr "J") = Raise (Exn KeyError "J").
Proof.
  apply (missing_key_raises_KeyError family 1 "J").
  apply (absent_above family 1 (mkConfig ∅ ∅ (Some (mkConsole (Some 0) ∅)) None)
           (mkConsole (Some 0) ∅) 0 "J"); try (vm_compute; reflexivity).
  apply (absent_no_parent family 0
           (mkConfig {[ "K" := (0, VStr "42") ]} {[ 0 := VStr "42" ]}
                     (Some (mkConsole None ∅)) None)
           (mkConsole None ∅) "J"); vm_compute; reflexivity.
Defined.

(** ** Assignment: what is written and what is left alone *)

#[export] Instance outlives_refl : Reflexive outlives.
Proof. intros w. unfold outlives. set_solver. Qed.

#[export] Instance outlives_trans : Transitive outlives.
Proof. intros w1 w2 w3. unfold outlives. set_solver. Qed.

Lemma outlives_alter_options g a w : outlives w (set_options (alter g a) w).
Proof.
  unfold outlives. simpl. intros x Hx. apply elem_of_dom.
  apply elem_of_dom in Hx as [o Ho]. rewrite lookup_alter.
  case_decide; [subst; rewrite Ho|]; eauto.
Qed.

Lemma outlives_same w w' : options w' = options w -> outlives w w'.
Proof. intros Ho. unfold outlives. by rewrite Ho. Qed.

Lemma Option_init_outlives args : keeps outlives (Option_init args).
Proof.
  intros w. unfold Option_init, outlives.
  destruct (let? t := _ in _) as [o|e|]; simpl; [|done..].
  rewrite dom_insert_L. set_solver.
Qed.

Lemma Option_bind_outlives self c : keeps outlives (Option_bind self c).
Proof.
  intros w. unfold Option_bind.
  destruct (options w !! self) as [o|]; [|reflexivity].
  destruct (default ∅ (instances w !! c) !! o_name o);
    unfold outlives; simpl; by rewrite dom_alter_L.
Qed.

(** A read of a name looks at nothing but the entries for that name and
    the consoles. *)
Lemma entry_at_getitem m w w' :
  (forall c, entry_at c m w' = entry_at c m w) ->
  forall fuel c, Config_getitem fuel w' c (KStr m) = Config_getitem fuel w c (KStr m).
Proof.
  intros He fuel. induction fuel as [|fuel IH]; intros c; [done|].
  rewrite !Config_getitem_S. simpl.
  specialize (He c). unfold entry_at in He.
  destruct (configs w' !! c) as [cfg'|], (configs w !! c) as [cfg|];
    simpl in *; try done.
  injection He as -> ->.
  destruct (c_d cfg !! m) as [[o v]|]; [done|].
  destruct (c_console cfg) as [co|]; [|done].
  destruct (parent co); [apply IH|done].
Qed.

Section AssignmentEffects.
Context `{Runtime}.

(** Lines 34-45 taken apart: the canonical instance, the previous value
    line 43 computed, and the heap that results. *)
Lemma setitem_store_inv fuel self k v w w1 key :
  setitem_store fuel self k v w = (w1, Ok key) ->
  exists wk o cfg old,
    setitem_key self k w = (wk, Ok key) /\
    options wk !! key = Some o /\
    configs wk !! self = Some cfg /\
    match c_d cfg !! o_name o with
    | Some _ => Option_value fuel wk key = Ok old
    | None => old = VNone
    end /\
    w1 = set_configs (alter (with_d (o_name o) key v) self)
           (set_options (alter (with_old_value old) key) wk).
Proof.
  unfold setitem_store, mbind. intros Hst.
  destruct (setitem_key self k w) as [wk [a|e|]]; simpl in Hst; try done.
  unfold setitem_old_value, setitem_assign, mbind, inspect, modify, ret in Hst.
  destruct (configs wk !! self) as [cfg|] eqn:Hself; simpl in Hst; try done.
  destruct (options wk !! a) as [oa|] eqn:Ha; simpl in Hst; try done.
  destruct (match c_d cfg !! o_name oa with Some _ => _ | None => _ end)
    as [old| |] eqn:Hold; simpl in Hst; try done.
  rewrite lookup_alter_eq, Ha in Hst. simpl in Hst.
  injection Hst as <- <-.
  exists wk, oa, cfg, old. repeat split; try done.
  destruct (c_d cfg !! o_name oa); [done|]. by injection Hold.
Qed.

(** Line 43 stores the value the option resolved to before the write,
    and [None] when the scope had no entry for the name. The rest of the
    assignment keeps it. *)
Theorem old_value_is_previous_resolved_value fuel self k v w w1 key :
  setitem_store fuel self k v w = (w1, Ok key) ->
  exists wk o cfg o',
    setitem_key self k w = (wk, Ok key) /\
    options wk !! key = Some o /\
    configs wk !! self = Some cfg /\
    options (Config_setitem fuel self k v w).1 !! key = Some o' /\
    match c_d cfg !! o_name o with
    | Some _ => Option_value fuel wk key = Ok (o_old_value o')
    | None => o_old_value o' = VNone
    end.
Proof.
  intros Hst.
  destruct (setitem_store_inv _ _ _ _ _ _ _ Hst) as (wk & o & cfg & old & Hk & Ho & Hc & Hold & ->).
  exists wk, o, cfg, (with_old_value old o).
  split; [done|]. split; [done|]. split; [done|]. split.
  - unfold Config_setitem, mbind. rewrite Hst.
    rewrite (setitem_finish_keeps_options fuel self key v _ : options _ = _).
    simpl. by rewrite lookup_alter_eq, Ho.
  - simpl. by destruct (c_d cfg !! o_name o).
Qed.
End AssignmentEffects.

Section AssignmentOfNames.
Context `{Runtime}.

(** The configs after lines 34-45, whatever their outcome: untouched, or
    with the one entry written under the name of the canonical instance. *)
Lemma setitem_store_configs fuel self k v w :
  configs (setitem_store fuel self k v w).1 = configs w \/
  exists wk key o,
    setitem_key self k w = (wk, Ok key) /\
    options wk !! key = Some o /\
    configs (setitem_store fuel self k v w).1
      = alter (with_d (o_name o) key v) self (configs w).
Proof.
  pose proof (setitem_key_keeps_configs self k w) as Hcf. unfold same in Hcf.
  unfold setitem_store, mbind.
  destruct (setitem_key self k w) as [wk [key|e|]]; simpl in *; [|by left..].
  unfold setitem_old_value, setitem_assign, mbind, inspect, modify, ret.
  destruct (configs wk !! self) as [cfg|]; simpl; [|by left].
  destruct (options wk !! key) as [o|] eqn:Ho; simpl; [|by left].
  destruct (match c_d cfg !! o_name o with Some _ => _ | None => _ end);
    simpl; [|by left..].
  rewrite lookup_alter_eq, Ho. simpl. right. exists wk, key, o.
  by rewrite Hcf.
Qed.

(** Lines 34-45 for a plain name on a sound registry. *)
Lemma setitem_store_plain_name fuel self n v w w1 key :
  registry_sound w ->
  setitem_store fuel self (SStr n) v w = (w1, Ok key) ->
  configs w1 = alter (with_d n key v) self (configs w) /\
  is_Some (configs w !! self) /\
  canonical w1 self n = Some key /\
  exists o, options w1 !! key = Some o /\ o_name o = n.
Proof.
  intros Hs Hst.
  destruct (setitem_store_inv _ _ _ _ _ _ _ Hst)
    as (wk & o & cfg & old & Hk & Ho & Hc & _ & ->).
  destruct (setitem_key_name self n w Hs) as (wk' & key' & o' & Hk' & _ & Ho' & Hn & Hcan).
  rewrite Hk in Hk'. injection Hk' as <- <-.
  rewrite Ho in Ho'. injection Ho' as <-.
  pose proof (setitem_key_keeps_configs self (SStr n) w) as Hcf.
  rewrite Hk in Hcf. unfold same in Hcf. simpl in Hcf.
  simpl. rewrite Hn, Hcf. repeat split; try done.
  - by rewrite <- Hcf, Hc.
  - exists (with_old_value old o). by rewrite lookup_alter_eq, Ho.
Qed.

Lemma setitem_finish_keeps_entry fuel self key v c m :
  keeps (same (entry_at c m)) (setitem_finish fuel self key v).
Proof.
  apply setitem_finish_keeps; [done|]. intros g w Hg.
  unfold entry_at. simpl. rewrite lookup_alter. case_decide as Hc; [|done].
  subst c. destruct (configs w !! self) as [cfg|]; [|done].
  simpl. destruct (Hg cfg) as [-> ->]. done.
Qed.

(** When lines 46-55 return, the inherited dictionary holds the value
    under the canonical instance. *)
Lemma setitem_finish_Ok_items fuel self key v w w' cfg :
  setitem_finish fuel self key v w = (w', Ok tt) ->
  configs w !! self = Some cfg ->
  exists cfg', configs w' !! self = Some cfg' /\ c_items cfg' !! key = Some v.
Proof.
  intros Hfin Hc.
  unfold setitem_finish, setitem_validate, setitem_super, setitem_callback,
    setitem_reset, mbind, inspect, modify, ret, raise in Hfin.
  destruct (options w !! key) as [o|] eqn:Ho; simpl in Hfin; [|done].
  destruct (call fuel w (o_validate o)) as [r| |]; simpl in Hfin; try done.
  destruct (truthy r); simpl in Hfin; [|done].
  rewrite Ho in Hfin. simpl in Hfin.
  destruct (call fuel _ (o_callback o)) as [x|e|]; simpl in Hfin; try done;
    rewrite Ho in Hfin; simpl in Hfin;
    rewrite ?lookup_alter_eq, Hc in Hfin; simpl in Hfin;
    destruct (o_reset o); try destruct (c_console cfg); simpl in Hfin;
    try done; injection Hfin as <-; simpl;
    rewrite ?lookup_alter_eq, Hc; simpl; eexists; (split; [reflexivity|]);
    simpl; by rewrite lookup_insert_eq.
Qed.

(** The scope after [config[n] = v] has returned. *)
Lemma Config_setitem_Ok_scope fuel self n v w w' :
  registry_sound w ->
  Config_setitem fuel self (SStr n) v w = (w', Ok tt) ->
  exists cfg' key,
    is_Some (configs w !! self) /\
    configs w' !! self = Some cfg' /\
    c_d cfg' !! n = Some (key, v) /\
    c_items cfg' !! key = Some v /\
    canonical w' self n = Some key.
Proof.
  intros Hs Hset. unfold Config_setitem, mbind in Hset.
  destruct (setitem_store fuel self (SStr n) v w) as [w1 [key|e|]] eqn:Hst;
    try done.
  destruct (setitem_store_plain_name _ _ _ _ _ _ _ Hs Hst)
    as (Hcf & [cfg Hc] & Hcan & _).
  assert (configs w1 !! self = Some (with_d n key v cfg)) as Hc1
    by (by rewrite Hcf, lookup_alter_eq, Hc).
  destruct (setitem_finish_Ok_items _ _ _ _ _ _ _ Hset Hc1) as (cfg' & Hc' & Hit).
  pose proof (setitem_finish_keeps_store fuel self key v self w1) as Hd.
  pose proof (setitem_finish_keeps_instances fuel self key v w1) as Hi.
  rewrite Hset in Hd, Hi. unfold same, store_at in Hd, Hi. simpl in Hd, Hi.
  rewrite Hc', Hc1 in Hd. simpl in Hd. injection Hd as Hd.
  exists cfg', key. repeat split; try done.
  - by rewrite Hd, lookup_insert_eq.
  - unfold canonical. by rewrite Hi.
Qed.

(** After [config[n] = v] has returned, [config[n]] is [v],
    [config.option(n)] is the canonical instance of the name, and that
    instance is a key of the inherited dictionary. *)
Theorem assignment_then_read fuel fuel' self n v w w' :
  registry_sound w ->
  Config_setitem fuel self (SStr n) v w = (w', Ok tt) ->
  Config_getitem (S fuel') w' self (KStr n) = Ok v /\
  exists key,
    canonical w' self n = Some key /\
    Config_option (S fuel') w' self (KStr n) = Ok key /\
    Config_contains w' self (KOpt key) = Ok true.
Proof.
  intros Hs Hset.
  destruct (Config_setitem_Ok_scope _ _ _ _ _ _ Hs Hset)
    as (cfg' & key & _ & Hc' & Hd & Hit & Hcan).
  split; [|exists key; split; [|split]].
  - rewrite Config_getitem_S. simpl. rewrite Hc'. simpl. by rewrite Hd.
  - exact Hcan.
  - rewrite Config_option_S. simpl. rewrite Hc'. simpl. by rewrite Hd.
  - unfold Config_contains. rewrite Hc'. simpl. rewrite Hit.
    by rewrite bool_decide_eq_true_2.
Qed.

(** An assignment to a name, whatever its outcome, changes what no scope
    reads for any other name. *)
Theorem assignment_leaves_other_names fuel fuel' self n m v w c :
  registry_sound w ->
  m <> n ->
  Config_getitem fuel' (Config_setitem fuel self (SStr n) v w).1 c (KStr m)
  = Config_getitem fuel' w c (KStr m).
Proof.
  intros Hs Hmn. apply entry_at_getitem. clear c. intros c.
  assert (entry_at c m (setitem_store fuel self (SStr n) v w).1 = entry_at c m w)
    as Hstore.
  { destruct (setitem_store_configs fuel self (SStr n) v w)
      as [Hcf|(wk & key & o & Hk & Ho & Hcf)];
      unfold entry_at; rewrite Hcf; [done|].
    destruct (setitem_key_name self n w Hs) as (wk' & key' & o' & Hk' & _ & Ho' & Hn & _).
    rewrite Hk in Hk'. injection Hk' as <- <-.
    rewrite Ho in Ho'. injection Ho' as <-.
    rewrite lookup_alter. case_decide as Hc; [|done]. subst c.
    destruct (configs w !! self) as [cfg|]; [|done]. simpl.
    by rewrite Hn, lookup_insert_ne. }
  unfold Config_setitem, mbind.
  destruct (setitem_store fuel self (SStr n) v w) as [w1 [key|e|]]; try done.
  simpl in Hstore. rewrite <- Hstore.
  apply (setitem_finish_keeps_entry fuel self key v c m w1).
Qed.

End AssignmentOfNames.

(** ** The registry over time *)

Lemma Option_bind_keeps_canonical self c' w c n a :
  canonical w c n = Some a ->
  canonical (Option_bind self c' w).1 c n = Some a.
Proof.
  intros Hcan. unfold Option_bind.
  destruct (options w !! self) as [o|]; [|done].
  rewrite canonical_default.
  destruct (canonical w c' (o_name o)) as [canon|] eqn:Hreg;
    unfold canonical; simpl;
    (destruct (decide (c' = c)) as [->|Hne];
     [rewrite lookup_insert_eq; simpl|by rewrite lookup_insert_ne]).
  - by rewrite canonical_default.
  - destruct (decide (o_name o = n)) as [<-|Hnn]; [congruence|].
    by rewrite lookup_insert_ne, canonical_default.
Qed.

(** Binding to one scope leaves the registry of every other scope. *)
Lemma Option_bind_other_scope self c' w c n :
  c <> c' ->
  canonical (Option_bind self c' w).1 c n = canonical w c n.
Proof.
  intros Hne. unfold Option_bind.
  destruct (options w !! self) as [o|]; [|done].
  destruct (default ∅ (instances w !! c') !! o_name o);
    unfold canonical; simpl; by rewrite lookup_insert_ne.
Qed.

Section RegistryOverTime.
Context `{Runtime}.

Lemma setitem_key_keeps_canonical self k w c n a :
  canonical w c n = Some a ->
  canonical (setitem_key self k w).1 c n = Some a.
Proof.
  intros Hcan. unfold setitem_key, mbind.
  destruct k as [o|s|args]; simpl.
  - by apply Option_bind_keeps_canonical.
  - by apply Option_bind_keeps_canonical.
  - pose proof (Option_init_keeps_instances args w) as Hi. unfold same in Hi.
    destruct (Option_init args w) as [w0 [tmp|e|]]; simpl in *;
      try (unfold canonical; by rewrite Hi).
    apply Option_bind_keeps_canonical. unfold canonical. by rewrite Hi.
Qed.

(** An assignment, whatever its key and its outcome, replaces or removes
    no canonical instance of any scope. *)
Theorem registry_never_forgets fuel self k v w c n a :
  canonical w c n = Some a ->
  canonical (Config_setitem fuel self k v w).1 c n = Some a.
Proof.
  intros Hcan. unfold canonical. rewrite Config_setitem_instances.
  by apply setitem_key_keeps_canonical.
Qed.

(** Lines 34-41 for a plain name the scope has no instance for: the new
    instance becomes the canonical one. *)
Lemma setitem_key_new_name self n w :
  canonical w self n = None ->
  exists wk,
    setitem_key self (SStr n) w = (wk, Ok (fresh (dom (options w)))) /\
    options wk = <[fresh (dom (options w)) :=
                     with_config self (fresh_option n (fresh (dom (options w))))]>
                   (options w) /\
    configs wk = configs w /\
    trace wk = trace w /\
    canonical wk self n = Some (fresh (dom (options w))) /\
    (forall c, c <> self -> forall m, canonical wk c m = canonical w c m) /\
    (forall m, m <> n -> canonical wk self m = canonical w self m).
Proof.
  intros Hcan. unfold setitem_key, mbind. rewrite Option_init_name_only.
  set (tmp := fresh (dom (options w))).
  set (w0 := set_options (insert tmp (fresh_option n tmp)) w).
  assert (options w0 !! tmp = Some (fresh_option n tmp)) as Htmp
    by apply lookup_insert_eq.
  pose proof (Option_bind_other_scope tmp self w0) as Hother.
  unfold Option_bind in Hother |- *. rewrite Htmp in Hother |- *.
  rewrite canonical_default in Hother |- *. simpl in Hother |- *.
  change (canonical w0 self n) with (canonical w self n) in Hother |- *.
  rewrite Hcan in Hother |- *. simpl in Hother.
  eexists. split; [reflexivity|]. simpl. repeat split.
  - apply map_eq. intros a. rewrite lookup_alter.
    case_decide as Ha; [subst a; by rewrite lookup_insert_eq, lookup_insert_eq|].
    by rewrite !lookup_insert_ne.
  - unfold canonical. simpl. rewrite lookup_insert_eq. simpl.
    by rewrite lookup_insert_eq.
  - intros c Hc m. by apply Hother.
  - intros m Hm. rewrite <- (canonical_default w self m).
    unfold canonical. simpl. rewrite lookup_insert_eq. simpl.
    by rewrite lookup_insert_ne.
Qed.

Lemma Config_setitem_outlives fuel self k v : keeps outlives (Config_setitem fuel self k v).
Proof.
  unfold Config_setitem, setitem_store, setitem_key, setitem_old_value, setitem_assign.
  apply keeps_mbind; [apply _| |intros a w; apply outlives_same, setitem_finish_keeps_options].
  apply keeps_mbind; [apply _| |intros key].
  - apply keeps_mbind; [apply _| |intros a; apply Option_bind_outlives].
    destruct k; [apply keeps_ret; apply _|apply Option_init_outlives..].
  - keeps_steps.
    + apply keeps_modify. intros w. apply outlives_alter_options.
    + apply keeps_modify. intros w. by apply outlives_same.
Qed.

(** Two scopes that have no instance for a name get one each: assigning
    the plain name in both gives two different canonical instances. *)
Theorem scopes_have_their_own_instances fuel c1 c2 n v1 v2 w :
  c1 <> c2 ->
  canonical w c1 n = None ->
  canonical w c2 n = None ->
  let w1 := (Config_setitem fuel c1 (SStr n) v1 w).1 in
  let w2 := (Config_setitem fuel c2 (SStr n) v2 w1).1 in
  exists a1 a2,
    canonical w2 c1 n = Some a1 /\ canonical w2 c2 n = Some a2 /\ a1 <> a2.
Proof.
  intros Hne Hcan1 Hcan2 w1 w2.
  destruct (setitem_key_new_name c1 n w Hcan1)
    as (wk1 & Hk1 & Hopts1 & _ & _ & Hreg1 & Hother1 & _).
  set (a1 := fresh (dom (options w))) in *.
  assert (forall c m, canonical w1 c m = canonical wk1 c m) as Hw1.
  { intros c m. unfold canonical, w1. by rewrite Config_setitem_instances, Hk1. }
  assert (canonical w1 c1 n = Some a1) as Hw1c1 by (by rewrite Hw1).
  assert (canonical w1 c2 n = None) as Hw1c2
    by (rewrite Hw1, Hother1 by done; exact Hcan2).
  assert (a1 ∈ dom (options w1)) as Hlive.
  { assert (outlives wk1 w1) as Hout.
    { unfold w1, Config_setitem, setitem_store. unfold mbind at 1 2. rewrite Hk1.
      assert (keeps outlives
                (let! x := (let! _ := setitem_old_value fuel c1 a1 in
                            let! _ := setitem_assign c1 a1 v1 in ret a1) in
                 setitem_finish fuel c1 x v1)) as Hk.
      { apply keeps_mbind; [apply _| |intros a w'; apply outlives_same, setitem_finish_keeps_options].
        unfold setitem_old_value, setitem_assign. keeps_steps.
        - apply keeps_modify. intros w'. apply outlives_alter_options.
        - apply keeps_modify. intros w'. by apply outlives_same. }
      apply (Hk wk1). }
    apply Hout. rewrite Hopts1, dom_insert_L. set_solver. }
  destruct (setitem_key_new_name c2 n w1 Hw1c2) as (wk2 & Hk2 & _ & _ & _ & Hreg2 & _ & _).
  exists a1, (fresh (dom (options w1))). split; [|split].
  - unfold canonical, w2. rewrite Config_setitem_instances.
    by apply setitem_key_keeps_canonical.
  - unfold canonical, w2. rewrite Config_setitem_instances, Hk2. exact Hreg2.
  - intros Heq. rewrite Heq in Hlive. by apply is_fresh in Hlive.
Qed.

End RegistryOverTime.

Lemma registry_never_forgets_witness :
  canonical (Config_setitem 2 0 (SStr "K") (VStr "43") scope_K42).1 0 "K" = Some 0.
Proof.
  apply (registry_never_forgets 2 0 (SStr "K") (VStr "43") scope_K42 0 "K" 0).
  vm_compute. reflexivity.
Defined.

Lemma scopes_have_their_own_instances_witness :
  let w1 := (Config_setitem 2 0 (SStr "K") (VStr "a") two_scopes).1 in
  let w2 := (Config_setitem 2 1 (SStr "K") (VStr "b") w1).1 in
  exists a1 a2,
    canonical w2 0 "K" = Some a1 /\ canonical w2 1 "K" = Some a2 /\ a1 <> a2.
Proof.
  apply (scopes_have_their_own_instances 2 0 1 "K" (VStr "a") (VStr "b") two_scopes).
  - discriminate.
  - reflexivity.
  - reflexivity.
Defined.

(** ** A new plain name *)

Section NewName.
Context `{Runtime}.

(** The default hook, called as a method, returns the option itself. *)
Lemma call_default_method fuel w a o :
  options w !! a = Some o ->
  call fuel w (Method a default_lambda) = Ok (VObj a).
Proof. intros Ho. simpl. unfold view_of. by rewrite Ho. Qed.

(** The heap after the assignment of a plain name that the scope has
    neither an entry nor an instance for. *)
Lemma Config_setitem_new_name fuel self n v w cfg :
  configs w !! self = Some cfg ->
  c_d cfg !! n = None ->
  canonical w self n = None ->
  exists w' cfg',
    Config_setitem fuel self (SStr n) v w = (w', Ok tt) /\
    trace w' = (trace w ++ [EvCallback (fresh (dom (options w)))])%list /\
    canonical w' self n = Some (fresh (dom (options w))) /\
    (forall m, m <> n -> canonical w' self m = canonical w self m) /\
    configs w' !! self = Some cfg' /\
    c_d cfg' = <[n := (fresh (dom (options w)), v)]> (c_d cfg) /\
    c_console cfg' = c_console cfg.
Proof.
  intros Hc Hd Hcan.
  destruct (setitem_key_new_name self n w Hcan)
    as (wk & Hk & Hopts & Hcf & Htr & Hreg & _ & Hsame).
  set (a := fresh (dom (options w))) in *.
  set (o1 := with_old_value VNone (with_config self (fresh_option n a))).
  set (w1 := set_configs (alter (with_d n a v) self)
               (set_options (alter (with_old_value VNone) a) wk)).
  assert (options wk !! a = Some (with_config self (fresh_option n a))) as Ha
    by (by rewrite Hopts, lookup_insert_eq).
  assert (setitem_store fuel self (SStr n) v w = (w1, Ok a)) as Hst.
  { unfold setitem_store, mbind. rewrite Hk.
    unfold setitem_old_value, setitem_assign, mbind, inspect, modify, ret.
    rewrite Hcf, Hc. simpl. rewrite Ha. simpl. rewrite Hd. simpl.
    by rewrite lookup_alter_eq, Ha. }
  assert (options w1 !! a = Some o1) as Ho1
    by (unfold w1; simpl; by rewrite lookup_alter_eq, Ha).
  assert (configs w1 !! self = Some (with_d n a v cfg)) as Hc1
    by (unfold w1; simpl; by rewrite lookup_alter_eq, Hcf, Hc).
  pose proof (call_default_method fuel w1 a o1 Ho1) as Hcall.
  unfold Config_setitem, mbind. rewrite Hst.
  rewrite (setitem_finish_valid fuel self a v w1 o1 (VObj a) Ho1 Hcall eq_refl)
    by (simpl o_callback; by rewrite Hcall).
  simpl o_callback. rewrite Hcall.
  destruct (after_callback_scope self a v (Ok (VObj a)) w1 _ Hc1)
    as (cfg' & Hc' & Hd' & Hco' & _).
  assert (options (after_callback self a v (Ok (VObj a)) w1) !! a = Some o1)
    as Ho2 by exact Ho1.
  rewrite (setitem_reset_run self a _ o1 cfg' Ho2 Hc').
  exists (after_callback self a v (Ok (VObj a)) w1), cfg'.
  split; [reflexivity|]. repeat split; try done.
  - simpl. by rewrite Htr.
Qed.

(** Assigning a plain name that the scope has neither an entry nor an
    instance for never fails: the new option accepts every value, its
    callback is called once and nothing is reset; the scope then reads
    the value back. *)
Theorem new_plain_name_is_always_accepted fuel fuel' self n v w cfg :
  configs w !! self = Some cfg ->
  c_d cfg !! n = None ->
  canonical w self n = None ->
  exists w',
    Config_setitem fuel self (SStr n) v w = (w', Ok tt) /\
    trace w' = (trace w ++ [EvCallback (fresh (dom (options w)))])%list /\
    canonical w' self n = Some (fresh (dom (options w))) /\
    Config_getitem (S fuel') w' self (KStr n) = Ok v.
Proof.
  intros Hc Hd Hcan.
  destruct (Config_setitem_new_name fuel self n v w cfg Hc Hd Hcan)
    as (w' & cfg' & Hset & Htr & Hreg & _ & Hc' & Hd' & _).
  exists w'. repeat split; try done.
  rewrite Config_getitem_S. simpl. rewrite Hc'. simpl.
  by rewrite Hd', lookup_insert_eq.
Qed.

End NewName.

Lemma new_plain_name_is_always_accepted_witness :
  exists w',
    Config_setitem 1 1 (SStr "K") (VObj 7) family = (w', Ok tt) /\
    trace w' = (trace family ++ [EvCallback (fresh (dom (options family)))])%list /\
    canonical w' 1 "K" = Some (fresh (dom (options family))) /\
    Config_getitem 1 w' 1 (KStr "K") = Ok (VObj 7).
Proof.
  apply (new_plain_name_is_always_accepted 1 0 1 "K" (VObj 7) family
           (mkConfig ∅ ∅ (Some (mkConsole (Some 0) ∅)) None));
    vm_compute; reflexivity.
Defined.

(** ** [Config.copy] and [Config.setdefault] *)

Section CopyAndDefault.
Context `{Runtime}.

(** [dst.copy(src, n)] moves no copy: the very instance that [src] holds
    for the name becomes the canonical instance of [dst] and is bound to
    [dst], both private dictionaries hold it with the same raw value, and
    its raw input is now read from [dst]. This holds whatever the outcome
    of the assignment, when [dst] had neither an entry nor an instance for
    the name. *)
Theorem copy_shares_the_instance fuel self src n o v w scfg dcfg oo :
  configs w !! src = Some scfg ->
  c_d scfg !! n = Some (o, v) ->
  options w !! o = Some oo ->
  o_name oo = n ->
  configs w !! self = Some dcfg ->
  c_d dcfg !! n = None ->
  canonical w self n = None ->
  src <> self ->
  let w' := (Config_copy (S fuel) self src (KStr n) w).1 in
  canonical w' self n = Some o /\
  (exists o', options w' !! o = Some o' /\ o_config o' = Some self) /\
  (exists dcfg', configs w' !! self = Some dcfg' /\ c_d dcfg' !! n = Some (o, v)) /\
  configs w' !! src = Some scfg /\
  Option_input (S fuel) w' o = Ok v.
Proof.
  intros Hsrc Hsd Ho Hn Hdst Hdd Hcan Hne w'.
  assert (Config_getitem (S fuel) w src (KStr n) = Ok v) as Hget
    by (rewrite Config_getitem_S; simpl; rewrite Hsrc; simpl; by rewrite Hsd).
  assert (Config_option (S fuel) w src (KStr n) = Ok o) as Hopt
    by (rewrite Config_option_S; simpl; rewrite Hsrc; simpl; by rewrite Hsd).
  assert (w' = (Config_setitem (S fuel) self (SOpt o) v w).1) as Hw'
    by (unfold w', Config_copy, mbind, inspect; by rewrite Hget, Hopt).
  destruct (Option_bind_run o self w oo Ho) as (wk & canon & Hb & Hcanon & Hreg & Hopts).
  rewrite Hn, Hcan in Hcanon. simpl in Hcanon. subst canon. rewrite Hn in Hreg.
  pose proof (Option_bind_keeps_configs o self w) as Hcf.
  rewrite Hb in Hcf. unfold same in Hcf. simpl in Hcf.
  assert (setitem_key self (SOpt o) w = (wk, Ok o)) as Hk by exact Hb.
  assert (options wk !! o = Some (with_config self oo)) as Hok
    by (by rewrite Hopts, lookup_alter_eq, Ho).
  set (w1 := set_configs (alter (with_d n o v) self)
               (set_options (alter (with_old_value VNone) o) wk)).
  assert (setitem_store (S fuel) self (SOpt o) v w = (w1, Ok o)) as Hst.
  { unfold setitem_store, mbind. rewrite Hk.
    unfold setitem_old_value, setitem_assign, mbind, inspect, modify, ret.
    rewrite Hcf, Hdst. simpl. rewrite Hok. simpl. rewrite Hn, Hdd. simpl.
    rewrite lookup_alter_eq, Hok. simpl. by rewrite Hn. }
  assert (w' = (setitem_finish (S fuel) self o v w1).1) as Hfin
    by (rewrite Hw'; unfold Config_setitem, mbind; by rewrite Hst).
  pose proof (setitem_finish_keeps_options (S fuel) self o v w1) as Hfo.
  pose proof (setitem_finish_keeps_instances (S fuel) self o v w1) as Hfi.
  pose proof (setitem_finish_keeps_store (S fuel) self o v self w1) as Hfd.
  pose proof (setitem_finish_keeps_others (S fuel) self o v src Hne w1) as Hfs.
  rewrite <- Hfin in Hfo, Hfi, Hfd, Hfs. unfold same, store_at, config_at in *.
  assert (options w' !! o = Some (with_old_value VNone (with_config self oo))) as Ho'
    by (rewrite Hfo; unfold w1; simpl; by rewrite lookup_alter_eq, Hok).
  assert (exists dcfg', configs w' !! self = Some dcfg' /\ c_d dcfg' !! n = Some (o, v))
    as (dcfg' & Hd' & Hdn).
  { unfold w1 in Hfd. simpl in Hfd. rewrite lookup_alter_eq, Hcf, Hdst in Hfd.
    destruct (configs w' !! self) as [dcfg'|]; [|done]. simpl in Hfd.
    injection Hfd as Hfd. exists dcfg'. split; [done|].
    by rewrite Hfd, lookup_insert_eq. }
  split; [|split; [|split; [|split]]].
  - unfold canonical. rewrite Hfi. exact Hreg.
  - by eexists.
  - by exists dcfg'.
  - rewrite Hfs. unfold w1. simpl. by rewrite lookup_alter_ne, Hcf.
  - unfold Option_input. rewrite Ho'. simpl.
    rewrite Config_getitem_S. simpl. rewrite Ho'. simpl. rewrite Hd'. simpl.
    by rewrite Hn, Hdn.
Qed.

(** [setdefault] asks the inherited dictionary, whose keys are [Option]
    instances. Given a name it therefore always assigns: when the
    assignment returns, the value read back is the new one, whatever the
    scope held for the name. Given an instance that is a key of the
    inherited dictionary it writes nothing and returns the raw value the
    scope reads for it. *)
Theorem setdefault_keeps_only_instances fuel self v w :
  (forall n w', registry_sound w ->
     Config_setitem (S fuel) self (SStr n) v w = (w', Ok tt) ->
     Config_setdefault (S fuel) self (KStr n) v w = (w', Ok v)) /\
  (forall o cfg, configs w !! self = Some cfg ->
     is_Some (c_items cfg !! o) ->
     Config_setdefault fuel self (KOpt o) v w
       = (w, Config_getitem fuel w self (KOpt o))).
Proof.
  split.
  - intros n w' Hs Hset.
    destruct (Config_setitem_Ok_scope _ _ _ _ _ _ Hs Hset)
      as (cfg' & key & [cfg Hc] & Hc' & Hd & _).
    unfold Config_setdefault, mbind, inspect, Config_contains.
    rewrite Hc. simpl. rewrite Hset.
    rewrite Config_getitem_S. simpl. rewrite Hc'. simpl. by rewrite Hd.
  - intros o cfg Hc Hin.
    unfold Config_setdefault, mbind, inspect, Config_contains, ret.
    rewrite Hc. simpl. rewrite bool_decide_eq_true_2 by done.
    by destruct (Config_getitem fuel w self (KOpt o)).
Qed.

End CopyAndDefault.

Lemma registry_sound_scope_K42 : registry_sound scope_K42.
Proof.
  apply (Config_setitem_sound 2 0 (SStr "K") (VStr "42") lone_scope).
  by apply registry_sound_no_instances.
Qed.

Lemma copy_shares_the_instance_witness :
  let w' := (Config_copy 1 1 0 (KStr "K") family).1 in
  canonical w' 1 "K" = Some 0 /\
  (exists o', options w' !! 0 = Some o' /\ o_config o' = Some 1) /\
  (exists dcfg', configs w' !! 1 = Some dcfg' /\ c_d dcfg' !! "K" = Some (0, VStr "42")) /\
  configs w' !! 0 = Some (mkConfig {[ "K" := (0, VStr "42") ]} {[ 0 := VStr "42" ]}
                                   (Some (mkConsole None ∅)) None) /\
  Option_input 1 w' 0 = Ok (VStr "42").
Proof.
  apply (copy_shares_the_instance 0 1 0 "K" 0 (VStr "42") family
           (mkConfig {[ "K" := (0, VStr "42") ]} {[ 0 := VStr "42" ]}
                     (Some (mkConsole None ∅)) None)
           (mkConfig ∅ ∅ (Some (mkConsole (Some 0) ∅)) None)
           K_option);
    try (vm_compute; reflexivity).
  discriminate.
Defined.

Lemma setdefault_keeps_only_instances_witness :
  Config_setdefault 2 0 (KStr "K") (VStr "43") scope_K42
  = ((Config_setitem 2 0 (SStr "K") (VStr "43") scope_K42).1, Ok (VStr "43")).
Proof.
  apply (proj1 (setdefault_keeps_only_instances 1 0 (VStr "43") scope_K42)).
  - exact registry_sound_scope_K42.
  - vm_compute. reflexivity.
Defined.

(** ** [Config.update] and [Config.keys] *)

Section Update.
Context `{Runtime}.

Lemma assign_all_app fuel self d1 d2 w :
  assign_all fuel self (d1 ++ d2)%list w
  = (let! _ := assign_all fuel self d1 in assign_all fuel self d2) w.
Proof.
  revert w. induction d1 as [|[k v] d1 IH]; intros w; [done|].
  simpl. unfold mbind.
  destruct (Config_setitem fuel self k v w) as [w1 [[]|e|]]; [|done..].
  rewrite IH. reflexivity.
Qed.

(** [update] is the assignments of its entries, one after the other, the
    positional mapping first and the keywords after it: updating with two
    mappings joined is updating with the first and then with the second,
    and stops where the first assignment raises. With more than one
    positional argument it raises [TypeError] and assigns nothing. *)
Theorem update_assigns_in_order fuel self w :
  (forall d1 d2 kw,
     Config_update fuel self [(d1 ++ d2)%list] kw w
     = (let! _ := Config_update fuel self [d1] [] in
        Config_update fuel self [d2] kw) w) /\
  (forall k v d kw w1 e,
     Config_setitem fuel self k v w = (w1, Raise e) ->
     Config_update fuel self [(k, v) :: d] kw w = (w1, Raise e)) /\
  (forall d1 d2 ds kw,
     Config_update fuel self (d1 :: d2 :: ds) kw w
     = (w, Raise (too_many_arguments (2 + List.length ds)))).
Proof.
  split; [|split].
  - intros d1 d2 kw. unfold Config_update, mbind.
    rewrite assign_all_app. unfold mbind.
    destruct (assign_all fuel self d1 w) as [w1 [[]|e|]]; reflexivity.
  - intros k v d kw w1 e Hset. unfold Config_update, mbind. simpl.
    unfold mbind. by rewrite Hset.
  - reflexivity.
Qed.

End Update.

Lemma update_assigns_in_order_witness :
  Config_update 2 0 [[(mode_key, VStr "c"); (SStr "K", VStr "1")]] [] lone_scope
  = (scope_MODE_c, Raise (Exn ValueError "Invalid value")).
Proof.
  apply (proj1 (proj2 (update_assigns_in_order 2 0 lone_scope))
           mode_key (VStr "c") [(SStr "K", VStr "1")] []).
  vm_compute. reflexivity.
Defined.

#[export] Instance str_le_total : Total str_le.
Proof. intros a b. apply String.leb_total. Qed.

(** The names [keys()] yields are the names of the private dictionary. *)
Lemma Config_keys_elem w c cfg :
  configs w !! c = Some cfg ->
  exists l, Config_keys w c = Ok l /\ l ≡ₚ (map_to_list (c_d cfg)).*1 /\
            forall n, n ∈ l <-> is_Some (c_d cfg !! n).
Proof.
  intros Hc. unfold Config_keys. rewrite Hc. simpl.
  eexists. split; [reflexivity|]. split; [apply merge_sort_Permutation|].
  intros n. rewrite merge_sort_Permutation, list_elem_of_fmap. split.
  - intros ([n' x] & -> & Hin). apply elem_of_map_to_list in Hin. by exists x.
  - intros [x Hx]. exists (n, x). split; [done|]. by apply elem_of_map_to_list.
Qed.

(** [keys()] yields the names the scope itself holds, each once, in
    increasing order; a name held by a parent scope only is not among
    them. *)
Theorem keys_are_the_sorted_local_names w c cfg :
  configs w !! c = Some cfg ->
  exists l,
    Config_keys w c = Ok l /\
    Sorted str_le l /\
    NoDup l /\
    forall n, n ∈ l <-> is_Some (c_d cfg !! n).
Proof.
  intros Hc. destruct (Config_keys_elem w c cfg Hc) as (l & Hl & Hperm & Hin).
  exists l. repeat split; try done; try apply Hin.
  - unfold Config_keys in Hl. rewrite Hc in Hl. simpl in Hl.
    injection Hl as <-. apply Sorted_merge_sort. apply _.
  - rewrite Hperm. apply NoDup_fst_map_to_list.
Qed.

Lemma keys_are_the_sorted_local_names_witness :
  exists l,
    Config_keys family 1 = Ok l /\
    Sorted str_le l /\
    NoDup l /\
    forall n, n ∈ l <->
              is_Some (c_d (mkConfig ∅ ∅ (Some (mkConsole (Some 0) ∅)) None) !! n).
Proof.
  apply (keys_are_the_sorted_local_names family 1).
  vm_compute. reflexivity.
Defined.

(** ** The constructor and unbound instances *)

(** The constructor refuses a hook that is not a plain function, naming
    the first such in the order transform, validate, callback, and leaves
    the heap as it was; otherwise it returns a new instance. *)
Theorem constructor_checks_hooks_in_order args w :
  (plain_hook (a_transform args) = false ->
     Option_init args w = (w, Raise (bad_lambda "transform"))) /\
  (plain_hook (a_transform args) = true ->
   plain_hook (a_validate args) = false ->
     Option_init args w = (w, Raise (bad_lambda "validate"))) /\
  (plain_hook (a_transform args) = true ->
   plain_hook (a_validate args) = true ->
   plain_hook (a_callback args) = false ->
     Option_init args w = (w, Raise (bad_lambda "callback"))) /\
  (plain_hook (a_transform args) = true ->
   plain_hook (a_validate args) = true ->
   plain_hook (a_callback args) = true ->
     exists w' a, Option_init args w = (w', Ok a) /\ a ∉ dom (options w)).
Proof.
  unfold Option_init, Option_set_func, plain_hook.
  destruct (a_transform args) as [[ft|st ft]|], (a_validate args) as [[fv|sv fv]|],
    (a_callback args) as [[fc|sc fc]|], (a_choices args);
    simpl; repeat split; intros; try done;
    eexists _, _; (split; [reflexivity|apply is_fresh]).
Qed.

Lemma constructor_checks_hooks_in_order_witness :
  Option_init (Args "K" None false CNone None (Some (Method 0 boom)) (Some (Method 0 boom)))
              lone_scope
  = (lone_scope, Raise (bad_lambda "validate")).
Proof.
  apply (proj1 (proj2 (constructor_checks_hooks_in_order
           (Args "K" None false CNone None (Some (Method 0 boom)) (Some (Method 0 boom)))
           lone_scope))); reflexivity.
Defined.

(** An instance the constructor returns has no scope: reading its input
    or its value raises [Exception("Unbound option <name>")], until an
    assignment or [bind] gives it one. *)
Theorem new_option_is_unbound `{Runtime} fuel args w w' a :
  Option_init args w = (w', Ok a) ->
  Option_input fuel w' a = Raise (unbound_option (a_name args)) /\
  Option_value fuel w' a = Raise (unbound_option (a_name args)).
Proof.
  unfold Option_init. intros Hinit.
  destruct (let? t := _ in _) as [o| |] eqn:Hbuilt; try done.
  injection Hinit as <- <-.
  assert (o_name o = a_name args /\ o_config o = None) as [Hn Hcfg].
  { destruct (Option_set_func _ (a_transform args) _); simpl in Hbuilt; try done.
    destruct (Option_set_func _ _ "validate"); simpl in Hbuilt; try done.
    destruct (Option_set_func _ (a_callback args) _); simpl in Hbuilt; try done.
    by injection Hbuilt as <-. }
  assert (Option_input fuel (set_options (insert (fresh (dom (options w))) o) w)
                       (fresh (dom (options w)))
          = Raise (unbound_option (a_name args))) as Hin.
  { unfold Option_input. simpl. rewrite lookup_insert_eq. simpl.
    by rewrite Hcfg, Hn. }
  split; [exact Hin|].
  unfold Option_value. rewrite Hin. simpl. by rewrite lookup_insert_eq.
Qed.

Lemma new_option_is_unbound_witness :
  Option_input 3 (Option_init (name_only "K") lone_scope).1 0 = Raise (unbound_option "K") /\
  Option_value 3 (Option_init (name_only "K") lone_scope).1 0 = Raise (unbound_option "K").
Proof.
  apply (new_option_is_unbound 3 (name_only "K") lone_scope). reflexivity.
Defined.

(** ** What an option resolves to *)

Section ResolvedValue.
Context `{Runtime}.

(** With the transform the constructor gives, an option resolves to the
    coerced form of what the template and path stages make of its raw
    value. For an option whose name is no path name this is, end to end:
    a raw string of digits resolves to the integer [int] reads, a raw
    string that is [true] or [false] in lower case to the boolean, a raw
    value that is no string to itself, and any other raw string without
    braces to itself. *)
Theorem value_is_the_coerced_input fuel w a o c cfg holder v :
  options w !! a = Some o ->
  o_config o = Some c ->
  configs w !! c = Some cfg ->
  c_d cfg !! o_name o = Some (holder, v) ->
  o_transform o = Method a default_lambda ->
  (o_required o = true -> v <> VNone) ->
  Option_value (S fuel) w a =
    (let? x := resolve_path (o_name o) (expand_template (c_console cfg) v) in
     coerce x) /\
  (is_path_name (o_name o) = false ->
   (forall s n, v = VStr s -> brace_free s = true ->
                str_isdigit s = true -> str_int s = Ok n ->
                Option_value (S fuel) w a = Ok (VInt n)) /\
   (forall s, v = VStr s -> brace_free s = true -> str_isdigit s = false ->
              str_lower s = "true" \/ str_lower s = "false" ->
              Option_value (S fuel) w a
              = Ok (VBool (String.eqb (str_lower s) "true"))) /\
   ((forall s, v <> VStr s) -> Option_value (S fuel) w a = Ok v) /\
   (forall s, v = VStr s -> brace_free s = true -> str_isdigit s = false ->
              str_lower s <> "true" -> str_lower s <> "false" ->
              Option_value (S fuel) w a = Ok v)).
Proof.
  intros Ho Hc Hcfg Hd Ht Hreq.
  assert (Option_value (S fuel) w a =
          (let? x := resolve_path (o_name o) (expand_template (c_console cfg) v) in
           coerce x)) as Hval.
  { rewrite (Option_value_stages fuel w a o c cfg holder v Ho Hc Hcfg Hd Hreq), Ht.
    destruct (resolve_path _ _) as [x| |]; simpl; [|done..].
    by destruct (coerce x). }
  split; [exact Hval|].
  intros Hname. rewrite Hval. unfold resolve_path. rewrite Hname. simpl.
  repeat split.
  - intros s n -> Hb Hs Hn.
    by rewrite (expand_template_brace_free _ s Hb), (coerce_digits s n Hs Hn).
  - intros s -> Hb Hs Hw.
    by rewrite (expand_template_brace_free _ s Hb), (coerce_boolean_word s Hs Hw).
  - intros Hv. by rewrite (expand_template_not_str _ v Hv), coerce_not_str.
  - intros s -> Hb Hdg Htr Hfa.
    by rewrite (expand_template_brace_free _ s Hb), coerce_other_str.
Qed.

End ResolvedValue.

Lemma value_is_the_coerced_input_witness :
  Option_value 2 scope_K42 0 = Ok (VInt 42) /\
  Option_value 2 scope_True 0 = Ok (VBool true).
Proof.
  split.
  - destruct (value_is_the_coerced_input 1 scope_K42 0 K_option 0
                (mkConfig {[ "K" := (0, VStr "42") ]} {[ 0 := VStr "42" ]} None None)
                0 (VStr "42"))
      as (_ & Hend).
    + vm_compute. reflexivity.
    + reflexivity.
    + vm_compute. reflexivity.
    + vm_compute. reflexivity.
    + reflexivity.
    + discriminate.
    + destruct Hend as (Hdigits & _); [reflexivity|].
      apply (Hdigits "42" 42%Z); reflexivity.
  - destruct (value_is_the_coerced_input 1 scope_True 0 K_option 0
                (mkConfig {[ "K" := (0, VStr "True") ]} {[ 0 := VStr "True" ]} None None)
                0 (VStr "True"))
      as (_ & Hend).
    + vm_compute. reflexivity.
    + reflexivity.
    + vm_compute. reflexivity.
    + vm_compute. reflexivity.
    + reflexivity.
    + discriminate.
    + destruct Hend as (_ & Hword & _); [reflexivity|].
      apply (Hword "True"); [reflexivity..|]. left. reflexivity.
Defined.

(** ** Validation by choices, and what a refused value leaves behind *)

Section Validation.
Context `{Runtime}.

(** With the validator the constructor gives an option that has choices,
    an assignment raises [ValueError("Invalid value")] exactly when the
    string form of the resolved value, in lower case, is the string form
    of none of the choices, in lower case. [x] is the value the option
    resolves to once the new raw value is written. *)
Theorem choices_decide_validation fuel self k v w w1 key o l x :
  setitem_store fuel self k v w = (w1, Ok key) ->
  options w1 !! key = Some o ->
  o_validate o = Method key choices_lambda ->
  o_choices o = Some l ->
  Option_value fuel w1 key = Ok x ->
  snd (Config_setitem fuel self k v w) = Raise (Exn ValueError "Invalid value")
  <-> str_in (str_lower (py_str x)) (map (fun c => str_lower (py_str c)) l) = false.
Proof.
  intros Hst Ho Hv Hl Hx.
  unfold Config_setitem, mbind. rewrite Hst.
  unfold setitem_finish, setitem_validate, mbind, inspect.
  rewrite Ho. simpl. rewrite Hv. simpl. unfold view_of. rewrite Ho. simpl.
  rewrite Hx, Hl. simpl.
  destruct (str_in _ _); simpl; [|done].
  split; [|done]. intros Hr. exfalso. revert Hr.
  unfold setitem_super, setitem_callback, setitem_reset, mbind, inspect, modify,
    raise, ret.
  simpl. rewrite Ho. simpl.
  destruct (call _ _ _); simpl; try discriminate; rewrite Ho; simpl;
    (destruct (_ !! self) as [cfg|]; simpl; [|discriminate]);
    destruct (o_reset o); try discriminate;
    destruct (c_console cfg); discriminate.
Qed.

(** A value the validator refuses is written to the private dictionary
    only: the name is among [keys()], while the inherited dictionary, and
    with it every membership test, is as before the assignment. *)
Theorem refused_value_is_listed_but_not_contained fuel self k v w w1 key o r :
  setitem_store fuel self k v w = (w1, Ok key) ->
  options w1 !! key = Some o ->
  call fuel w1 (o_validate o) = Ok r ->
  truthy r = false ->
  let w' := (Config_setitem fuel self k v w).1 in
  (exists l, Config_keys w' self = Ok l /\ o_name o ∈ l) /\
  items_at self w' = items_at self w /\
  (forall k', Config_contains w' self k' = Config_contains w self k').
Proof.
  intros Hst Ho Hval Htr w'.
  assert (w' = w1) as ->.
  { unfold w', Config_setitem, mbind. rewrite Hst.
    unfold setitem_finish, setitem_validate, mbind, inspect.
    rewrite Ho. simpl. rewrite Hval. simpl. by rewrite Htr. }
  destruct (setitem_store_inv _ _ _ _ _ _ _ Hst)
    as (wk & o0 & cfg & old & Hk & Ho0 & Hc & _ & Hw1).
  pose proof (setitem_key_keeps_configs self k w) as Hcf.
  rewrite Hk in Hcf. unfold same in Hcf. simpl in Hcf.
  assert (o_name o = o_name o0) as Hn.
  { rewrite Hw1 in Ho. simpl in Ho. rewrite lookup_alter_eq, Ho0 in Ho.
    by injection Ho as <-. }
  assert (configs w1 !! self = Some (with_d (o_name o0) key v cfg)) as Hc1
    by (rewrite Hw1; simpl; by rewrite lookup_alter_eq, Hc).
  assert (items_at self w1 = items_at self w) as Hit
    by (unfold items_at; by rewrite Hc1, <- Hcf, Hc).
  split; [|split; [exact Hit|]].
  - destruct (Config_keys_elem w1 self _ Hc1) as (l & Hl & _ & Hin).
    exists l. split; [done|]. apply Hin. rewrite Hn. simpl.
    by rewrite lookup_insert_eq.
  - intros k'. unfold Config_contains. unfold items_at in Hit.
    destruct (configs w1 !! self) as [c1|], (configs w !! self) as [c0|];
      simpl in *; try done.
    injection Hit as ->. done.
Qed.

End Validation.

Lemma choices_decide_validation_witness :
  snd (Config_setitem 2 0 mode_key (VStr "C") lone_scope)
    = Raise (Exn ValueError "Invalid value")
  <-> str_in (str_lower (py_str (VStr "C")))
             (map (fun c => str_lower (py_str c)) [VStr "a"; VStr "b"]) = false.
Proof.
  apply (choices_decide_validation 2 0 mode_key (VStr "C") lone_scope
           (setitem_store 2 0 mode_key (VStr "C") lone_scope).1 0
           mode_option
           [VStr "a"; VStr "b"] (VStr "C"));
    vm_compute; reflexivity.
Defined.

Lemma refused_value_is_listed_but_not_contained_witness :
  let w' := (Config_setitem 2 0 mode_key (VStr "c") lone_scope).1 in
  (exists l, Config_keys w' 0 = Ok l /\ o_name mode_option ∈ l) /\
  items_at 0 w' = items_at 0 lone_scope /\
  (forall k', Config_contains w' 0 k' = Config_contains lone_scope 0 k').
Proof.
  apply (refused_value_is_listed_but_not_contained 2 0 mode_key (VStr "c") lone_scope
           scope_MODE_c 0 mode_option (VBool false));
    vm_compute; reflexivity.
Defined.

(** ** A scope built from entries *)

Section NewScope.
Context `{Runtime}.

(** Assigning, one after the other, distinct plain names that the scope
    has neither entries nor instances for. *)
Lemma assign_all_new_names fuel self kw :
  forall w cfg,
    configs w !! self = Some cfg ->
    NoDup kw.*1 ->
    (forall n, n ∈ kw.*1 -> c_d cfg !! n = None /\ canonical w self n = None) ->
    exists w' cfg',
      assign_all fuel self (keyword_entries kw) w = (w', Ok tt) /\
      configs w' !! self = Some cfg' /\
      (forall n v, (n, v) ∈ kw -> exists a, c_d cfg' !! n = Some (a, v)) /\
      (forall n, n ∉ kw.*1 -> c_d cfg' !! n = c_d cfg !! n) /\
      c_console cfg' = c_console cfg.
Proof.
  induction kw as [|[n v] kw IH]; intros w cfg Hc Hnd Hnew.
  - exists w, cfg. repeat split; try done. intros n v Hin. by apply elem_of_nil in Hin.
  - simpl in Hnd. apply NoDup_cons in Hnd as [Hn Hnd].
    destruct (Hnew n) as [Hd Hcan]; [simpl; apply list_elem_of_here|].
    destruct (Config_setitem_new_name fuel self n v w cfg Hc Hd Hcan)
      as (w1 & cfg1 & Hset & _ & _ & Hsame & Hc1 & Hd1 & Hco1).
    destruct (IH w1 cfg1 Hc1 Hnd) as (w' & cfg' & Hall & Hc' & Hin' & Hout' & Hco').
    { intros m Hm. assert (m <> n) as Hmn by (intros ->; done).
      destruct (Hnew m) as [Hdm Hcm]; [simpl; by apply list_elem_of_further|].
      split; [by rewrite Hd1, lookup_insert_ne|by rewrite Hsame]. }
    exists w', cfg'. split; [|split; [done|split; [|split]]].
    + simpl. unfold mbind. by rewrite Hset.
    + intros m x Hm. apply elem_of_cons in Hm as [[= -> ->]|Hm]; [|by apply Hin'].
      exists (fresh (dom (options w))).
      by rewrite (Hout' n Hn), Hd1, lookup_insert_eq.
    + intros m Hm. simpl in Hm. apply not_elem_of_cons in Hm as [Hmn Hm].
      by rewrite (Hout' m Hm), Hd1, lookup_insert_ne.
    + by rewrite Hco', Hco1.
Qed.

(** [Config( **kw )] with distinct names, at an identity the registry
    holds nothing for: the constructor returns a new scope in which each
    name reads its value and every other name raises [KeyError]. With no
    entries at all this is the empty scope. *)
Theorem new_scope_reads_back_its_entries fuel fuel' kw w :
  instances w !! fresh (dom (configs w)) = None ->
  NoDup kw.*1 ->
  exists w',
    Config_init fuel [] kw w = (w', Ok (fresh (dom (configs w)))) /\
    (fresh (dom (configs w)) ∉ dom (configs w)) /\
    (forall n v, (n, v) ∈ kw ->
       Config_getitem (S fuel') w' (fresh (dom (configs w))) (KStr n) = Ok v) /\
    (forall n, n ∉ kw.*1 ->
       Config_getitem (S fuel') w' (fresh (dom (configs w))) (KStr n)
       = Raise (Exn KeyError n)).
Proof.
  intros Hreg Hnd. set (self := fresh (dom (configs w))) in *.
  set (w0 := set_configs (insert self (mkConfig ∅ ∅ None None)) w).
  destruct (assign_all_new_names fuel self kw w0 (mkConfig ∅ ∅ None None))
    as (w' & cfg' & Hall & Hc' & Hin & Hout & Hco); [| done |  |].
  { unfold w0. simpl. by rewrite lookup_insert_eq. }
  { intros n _. split; [done|]. unfold canonical, w0. simpl. by rewrite Hreg. }
  exists w'. split; [|split; [apply is_fresh|split]].
  - unfold Config_init, Config_update, mbind, ret. fold self. fold w0.
    by rewrite Hall.
  - intros n v Hnv. destruct (Hin n v Hnv) as [a Ha].
    rewrite Config_getitem_S. simpl. rewrite Hc'. simpl. by rewrite Ha.
  - intros n Hn. rewrite Config_getitem_S. simpl. rewrite Hc'. simpl.
    rewrite (Hout n Hn). simpl in Hco. by rewrite Hco.
Qed.

End NewScope.

Lemma new_scope_reads_back_its_entries_witness :
  exists w',
    Config_init 1 [] [("b", VInt 2); ("a", VStr "x")] family
      = (w', Ok (fresh (dom (configs family)))) /\
    (fresh (dom (configs family)) ∉ dom (configs family)) /\
    (forall n v, (n, v) ∈ [("b", VInt 2); ("a", VStr "x")] ->
       Config_getitem 1 w' (fresh (dom (configs family))) (KStr n) = Ok v) /\
    (forall n, n ∉ [("b", VInt 2); ("a", VStr "x")].*1 ->
       Config_getitem 1 w' (fresh (dom (configs family))) (KStr n)
       = Raise (Exn KeyError n)).
Proof.
  apply (new_scope_reads_back_its_entries 1 0 [("b", VInt 2); ("a", VStr "x")] family).
  - vm_compute. reflexivity.
  - simpl. apply NoDup_cons. split; [|apply NoDup_singleton].
    rewrite list_elem_of_singleton. discriminate.
Defined.

(** ** The theorems above on concrete heaps *)

Lemma old_value_is_previous_resolved_value_witness :
  exists wk o cfg o',
    setitem_key 0 (SStr "K") scope_K42 = (wk, Ok 0) /\
    options wk !! 0 = Some o /\
    configs wk !! 0 = Some cfg /\
    options (Config_setitem 2 0 (SStr "K") (VStr "43") scope_K42).1 !! 0 = Some o' /\
    match c_d cfg !! o_name o with
    | Some _ => Option_value 2 wk 0 = Ok (o_old_value o')
    | None => o_old_value o' = VNone
    end.
Proof.
  apply (old_value_is_previous_resolved_value 2 0 (SStr "K") (VStr "43") scope_K42
           (setitem_store 2 0 (SStr "K") (VStr "43") scope_K42).1 0).
  vm_compute. reflexivity.
Defined.

Lemma assignment_then_read_witness :
  Config_getitem 1 (Config_setitem 2 0 (SStr "K") (VStr "43") scope_K42).1 0 (KStr "K")
    = Ok (VStr "43") /\
  exists key,
    canonical (Config_setitem 2 0 (SStr "K") (VStr "43") scope_K42).1 0 "K" = Some key /\
    Config_option 1 (Config_setitem 2 0 (SStr "K") (VStr "43") scope_K42).1 0 (KStr "K")
      = Ok key /\
    Config_contains (Config_setitem 2 0 (SStr "K") (VStr "43") scope_K42).1 0 (KOpt key)
      = Ok true.
Proof.
  apply (assignment_then_read 2 0 0 "K" (VStr "43") scope_K42).
  - exact registry_sound_scope_K42.
  - vm_compute. reflexivity.
Defined.

Lemma assignment_leaves_other_names_witness :
  Config_getitem 2 (Config_setitem 2 1 (SStr "J") (VInt 1) family).1 1 (KStr "K")
  = Config_getitem 2 family 1 (KStr "K").
Proof.
  apply (assignment_leaves_other_names 2 2 1 "J" "K" (VInt 1) family 1).
  - exact registry_sound_family.
  - discriminate.
Defined.

(** ** Invariant and failures of an assignment *)

(** An assignment, whatever its key and its outcome, keeps the registry
    sound: every instance it names is in the heap and bears the name it is
    registered under. *)
Theorem assignment_keeps_registry_sound `{Runtime} fuel self k v w :
  registry_sound w ->
  registry_sound (Config_setitem fuel self k v w).1.
Proof. apply Config_setitem_sound. Qed.

Lemma assignment_keeps_registry_sound_witness :
  registry_sound (Config_setitem 2 0 mode_key (VStr "c") lone_scope).1.
Proof.
  apply (assignment_keeps_registry_sound 2 0 mode_key (VStr "c") lone_scope).
  by apply registry_sound_no_instances.
Defined.

(** When the validator raises, the assignment raises the same after the
    write of line 45: the callback is not called and nothing is reset. *)
Theorem validator_error_propagates `{Runtime} fuel self k v w w1 key o e :
  setitem_store fuel self k v w = (w1, Ok key) ->
  options w1 !! key = Some o ->
  call fuel w1 (o_validate o) = Raise e ->
  Config_setitem fuel self k v w = (w1, Raise e) /\
  trace w1 = trace w /\
  exists cfg, configs w1 !! self = Some cfg /\ c_d cfg !! o_name o = Some (key, v).
Proof.
  intros Hst Ho Hval. split; [|split].
  - unfold Config_setitem, mbind. rewrite Hst.
    unfold setitem_finish, setitem_validate, mbind, inspect.
    rewrite Ho. simpl. by rewrite Hval.
  - by apply setitem_store_Ok in Hst as (_ & _ & _ & _ & _ & Htr).
  - apply setitem_store_Ok in Hst as (o' & Ho' & Hcf & [cfg Hself] & _).
    rewrite Ho in Ho'. injection Ho' as <-.
    exists (with_d (o_name o) key v cfg). rewrite Hcf, lookup_alter_eq, Hself.
    split; [done|]. simpl. by rewrite lookup_insert_eq.
Qed.

Lemma validator_error_propagates_witness :
  Config_setitem 2 0 (STuple (Args "K" None false CNone None (Some (Function boom)) None))
                 (VStr "x") lone_scope
    = ((setitem_store 2 0 (STuple (Args "K" None false CNone None (Some (Function boom)) None))
                      (VStr "x") lone_scope).1,
       Raise (Exn Exception "boom")) /\
  trace (setitem_store 2 0 (STuple (Args "K" None false CNone None (Some (Function boom)) None))
                       (VStr "x") lone_scope).1 = trace lone_scope /\
  exists cfg,
    configs (setitem_store 2 0 (STuple (Args "K" None false CNone None (Some (Function boom)) None))
                           (VStr "x") lone_scope).1 !! 0 = Some cfg /\
    c_d cfg !! o_name (mkOption "K" None false None (Method 0 default_lambda)
                                (Method 0 boom) (Method 0 default_lambda)
                                (Some 0) VNone false) = Some (0, VStr "x").
Proof.
  apply (validator_error_propagates 2 0
           (STuple (Args "K" None false CNone None (Some (Function boom)) None))
           (VStr "x") lone_scope _ 0
           (mkOption "K" None false None (Method 0 default_lambda)
                     (Method 0 boom) (Method 0 default_lambda) (Some 0) VNone false)
           (Exn Exception "boom"));
    vm_compute; reflexivity.
Defined.

